(** * function-deletion-protection: the composition function of fn.go

    A shallow embedding of [fn.go] and the properties of its handler
    [RunFunction].  Go maps are [gmap]s, dynamically typed documents
    ([map[string]any]) are a JSON-like inductive type, fallible calls return
    a sum, and the calls into the function SDK whose behaviour is not part
    of this repository are the fields of an interface. *)

From Stdlib Require Import String Ascii List Bool.
From stdpp Require Import base option gmap strings list fin_maps.

Local Open Scope string_scope.

(** ** Dynamically typed documents *)

(** A Go value of type [any] as it occurs inside an unstructured object:
    what [encoding/json] decodes a document to. *)
#[warnings="-register-all"]
Inductive value : Type :=
  | VNull
  | VBool (b : bool)
  | VNum (n : Z)
  | VString (s : string)
  | VList (l : list value)
  | VMap (m : gmap string value).

(** The type assertion [v.(string)]. *)
Definition as_string (v : value) : option string :=
  match v with VString s => Some s | _ => None end.

(** The type assertion [v.(map[string]any)]. *)
Definition as_map (v : value) : option (gmap string value) :=
  match v with VMap m => Some m | _ => None end.

(** An error is the text that [err.Error()] returns. *)
Definition error : Type := string.

(** [errors.Wrap(err, msg)]. *)
Definition Wrap (err : error) (msg : string) : error := msg ++ ": " ++ err.

(** ** k8s.io/apimachinery [unstructured.Unstructured]

    [Object] is a Go map, which may be nil. *)
Module unstructured.

Record Unstructured : Type := { Object : option (gmap string value) }.

(** [NestedFieldNoCopy(obj, fields...)]: [inr None] is "not found",
    [inl tt] the accessor error raised when a field on the way is not a
    map.  A nil map reads as an empty one. *)
Fixpoint NestedFieldNoCopy (val : value) (fields : list string)
  : unit + option value :=
  match fields with
  | [] => inr (Some val)
  | field :: rest =>
      match val with
      | VNull => inr None
      | VMap m =>
          match m !! field with
          | Some v => NestedFieldNoCopy v rest
          | None => inr None
          end
      | _ => inl tt
      end
  end.

Definition root (u : Unstructured) : value :=
  VMap (default ∅ (Object u)).

(** [getNestedString]: the string at the path, [""] when it is missing
    or is not a string. *)
Definition getNestedString (u : Unstructured) (fields : list string) : string :=
  match NestedFieldNoCopy (root u) fields with
  | inr (Some (VString s)) => s
  | _ => ""
  end.

Definition GetName (u : Unstructured) : string :=
  getNestedString u ["metadata"; "name"].
Definition GetNamespace (u : Unstructured) : string :=
  getNestedString u ["metadata"; "namespace"].
Definition GetAPIVersion (u : Unstructured) : string :=
  getNestedString u ["apiVersion"].
Definition GetKind (u : Unstructured) : string :=
  getNestedString u ["kind"].

(** [NestedStringMap]: the map at the path with every value asserted to
    be a string; a single value of another type makes the whole call fail. *)
Definition string_map (m : gmap string value) : option (gmap string string) :=
  if decide (map_Forall (fun _ v => is_Some (as_string v)) m)
  then Some (omap as_string m)
  else None.

(** [GetLabels]: the labels as a [map[string]string], nil (here the empty
    map, which reads the same) when [NestedStringMap] fails or finds
    nothing. *)
Definition GetLabels (u : Unstructured) : gmap string string :=
  match NestedFieldNoCopy (root u) ["metadata"; "labels"] with
  | inr (Some (VMap m)) => default ∅ (string_map m)
  | _ => ∅
  end.

End unstructured.

(** ** function-sdk-go resources

    [composed.Unstructured] and [composite.Unstructured] are two distinct
    struct types that both embed [unstructured.Unstructured]; the embedded
    struct's methods are promoted, which the coercions render. *)
Module composed.

Record Unstructured : Type := { embedded : unstructured.Unstructured }.

(** [composed.New()]: an object with an empty, non-nil map. *)
Definition New : Unstructured :=
  {| embedded := {| unstructured.Object := Some ∅ |} |}.

End composed.

Module composite.

Record Unstructured : Type := { embedded : unstructured.Unstructured }.

End composite.

Coercion composed.embedded : composed.Unstructured >-> unstructured.Unstructured.
Coercion composite.embedded : composite.Unstructured >-> unstructured.Unstructured.

Module resource.

Inductive Ready : Type := ReadyUnspecified | ReadyTrue | ReadyFalse.

(** [resource.Name], the pipeline-local name a composed resource is keyed by. *)
Definition Name : Type := string.

Module Composite.
Record t : Type :=
  { Resource : composite.Unstructured;
    ConnectionDetails : gmap string string }.
End Composite.

Module ObservedComposed.
Record t : Type :=
  { Resource : composed.Unstructured;
    ConnectionDetails : gmap string string }.
End ObservedComposed.

Module DesiredComposed.
Record t : Type :=
  { Resource : composed.Unstructured;
    Ready : resource.Ready }.
End DesiredComposed.

End resource.

(** ** crossplane-runtime [fieldpath] *)
Module fieldpath.

(** [Pave(obj).GetValue(path)] for a path made of field segments only
    (["metadata.labels"] is [["metadata"; "labels"]]): every segment must be
    looked up in an object and must be there. *)
Fixpoint GetValue (it : value) (segments : list string) : error + value :=
  match segments with
  | [] => inr it
  | field :: rest =>
      match it with
      | VMap object =>
          match object !! field with
          | Some v => GetValue v rest
          | None => inl (field ++ ": no such field")
          end
      | _ => inl (field ++ ": not an object")
      end
  end.

(** [GetValueInto(path, &labels)] with [labels] a nil [map[string]any]: the
    value found is marshalled to JSON and unmarshalled into the map.  An
    object fills it, [null] leaves it nil (the empty map reads the same),
    anything else is an unmarshalling error. *)
Definition GetValueInto_map (object : gmap string value) (segments : list string)
  : error + gmap string value :=
  match GetValue (VMap object) segments with
  | inl err => inl err
  | inr (VMap m) => inr m
  | inr VNull => inr ∅
  | inr _ => inl "cannot unmarshal value from JSON"
  end.

End fieldpath.

(** ** [strings.EqualFold]

    Case folding is modelled on the ASCII letters.  The program only
    compares against ["true"], and the Unicode simple-folding orbits of
    [t], [r], [u] and [e] hold nothing but their two ASCII forms, so for
    these calls the model and the library agree. *)
Module strings.

Definition to_lower (c : ascii) : ascii :=
  let n := nat_of_ascii c in
  if (65 <=? n)%nat && (n <=? 90)%nat then ascii_of_nat (n + 32) else c.

Fixpoint ToLower (s : string) : string :=
  match s with
  | EmptyString => EmptyString
  | String a s' => String (to_lower a) (ToLower s')
  end.

Fixpoint EqualFold (s t : string) : bool :=
  match s, t with
  | EmptyString, EmptyString => true
  | String a s', String b t' => Ascii.eqb (to_lower a) (to_lower b) && EqualFold s' t'
  | _, _ => false
  end.

End strings.

(** ** fn.go *)

Definition ProtectionLabelBlockDeletion : string :=
  "protection.fn.crossplane.io/block-deletion".
Definition ProtectionLabelEnabled : string :=
  "protection.fn.crossplane.io/enabled".

(** The constants of the imported package [protectionv1beta1]. *)
Module protectionv1beta1.
Definition Group : string := "protection.crossplane.io".
Definition Version : string := "v1beta1".
Definition UsageKind : string := "Usage".
Definition ClusterUsageKind : string := "ClusterUsage".
End protectionv1beta1.

Definition ProtectionGroupVersion : string :=
  protectionv1beta1.Group ++ "/" ++ protectionv1beta1.Version.

(** [ProtectXR]: a lookup in the composite's typed labels. *)
Definition ProtectXR (dc : composite.Unstructured) : bool :=
  let labels := unstructured.GetLabels dc in
  match labels !! ProtectionLabelBlockDeletion with
  | Some val => strings.EqualFold val "true"
  | None => false
  end.

(** [MatchLabel] determines if a resource's label is both set and set to true. *)
Definition MatchLabel (u : composed.Unstructured) (label : string) : bool :=
  match unstructured.Object u with
  | None => false
  | Some object =>
      match fieldpath.GetValueInto_map object ["metadata"; "labels"] with
      | inl _ => false
      | inr labels =>
          match labels !! label ≫= as_string with
          | Some val => strings.EqualFold val "true"
          | None => false
          end
      end
  end.

(** [ProtectResource] determines if a resource should be protected. *)
Definition ProtectResource (dc : composed.Unstructured) (label : string) : bool :=
  MatchLabel dc label.

(** [GenerateUsage] creates a Usage for a desired composed resource. *)
Definition GenerateUsage (u : composed.Unstructured) : gmap string value :=
  let namespace := unstructured.GetNamespace u in
  let '(usageType, resourceRef) :=
    if decide (namespace = "")
    then (protectionv1beta1.ClusterUsageKind,
          ({[ "name" := VString (unstructured.GetName u) ]} : gmap string value))
    else (protectionv1beta1.UsageKind,
          {[ "name" := VString (unstructured.GetName u);
             "namespace" := VString (unstructured.GetNamespace u) ]}) in
  {[ "apiVersion" := VString ProtectionGroupVersion;
     "kind" := VString usageType;
     "metadata" := VMap
       {[ "name" := VString (unstructured.GetName u ++ "-function-protection") ]};
     "spec" := VMap
       {[ "of" := VMap
            {[ "apiVersion" := VString (unstructured.GetAPIVersion u);
               "kind" := VString (unstructured.GetKind u);
               "resourceRef" := VMap resourceRef ]};
          "reason" := VString
            ("Created by function-deletion-protection via label "
               ++ ProtectionLabelBlockDeletion) ]} ]}.

(** [GenerateXRUsage] creates a Usage for a desired composite resource. *)
Definition GenerateXRUsage (u : composite.Unstructured) : gmap string value :=
  let namespace := unstructured.GetNamespace u in
  let '(usageType, resourceRef) :=
    if decide (namespace = "")
    then (protectionv1beta1.ClusterUsageKind,
          ({[ "name" := VString (unstructured.GetName u) ]} : gmap string value))
    else (protectionv1beta1.UsageKind,
          {[ "name" := VString (unstructured.GetName u);
             "namespace" := VString (unstructured.GetNamespace u) ]}) in
  {[ "apiVersion" := VString ProtectionGroupVersion;
     "kind" := VString usageType;
     "metadata" := VMap
       {[ "name" := VString (unstructured.GetName u ++ "-function-protection") ]};
     "spec" := VMap
       {[ "of" := VMap
            {[ "apiVersion" := VString (unstructured.GetAPIVersion u);
               "kind" := VString (unstructured.GetKind u);
               "resourceRef" := VMap resourceRef ]};
          "reason" := VString
            ("deletion blocked by function-deletion-protection via label "
               ++ ProtectionLabelBlockDeletion) ]} ]}.

(** ** The calls that leave the repository

    [encoding/json], as [convertViaJSON] uses it: marshalling a generated
    usage and unmarshalling the bytes into a composed resource.  Nothing is
    assumed about when either fails. *)
Class JSON : Type :=
  { bytes : Type;
    json_Marshal : gmap string value → error + bytes;
    json_Unmarshal : bytes → composed.Unstructured → error + composed.Unstructured }.

(** The function SDK: the request and the protobuf state are opaque, the
    three [request.Get...] calls may fail, and
    [response.SetDesiredComposedResources] returns the desired state it
    leaves in the response together with its error, if any. *)
Class SDK : Type :=
  { RunFunctionRequest : Type;
    State : Type;
    GetDesired : RunFunctionRequest → option State;
    GetObservedCompositeResource : RunFunctionRequest → error + resource.Composite.t;
    GetObservedComposedResources :
      RunFunctionRequest → error + gmap resource.Name resource.ObservedComposed.t;
    GetDesiredComposedResources :
      RunFunctionRequest → error + gmap resource.Name resource.DesiredComposed.t;
    SetDesiredComposedResources :
      option State → gmap resource.Name resource.DesiredComposed.t →
      option State * option error }.

(** [fnv1.RunFunctionResponse] and the helpers of the SDK's [response]
    package.  [Meta] and [Context], which the handler never touches after
    [response.To], are left out. *)
Module response.

Inductive Severity : Type := SEVERITY_FATAL | SEVERITY_WARNING | SEVERITY_NORMAL.
Inductive Target : Type := TARGET_COMPOSITE | TARGET_COMPOSITE_AND_CLAIM.
Inductive Status : Type := STATUS_CONDITION_TRUE | STATUS_CONDITION_FALSE.

Record Result : Type :=
  { Severity_ : Severity; Message : string; ResultTarget : Target }.

Record Condition : Type :=
  { Type_ : string; Status_ : Status; Reason : string; ConditionTarget : Target }.

Record RunFunctionResponse {K : SDK} : Type :=
  { Desired : option State;
    Results : list Result;
    Conditions : list Condition }.

Section helpers.
Context {K : SDK}.

(** [response.To] bootstraps a response to the supplied request; as the
    SDK documents it, it automatically copies the desired state from the
    request. *)
Definition To (req : RunFunctionRequest) : RunFunctionResponse :=
  {| Desired := GetDesired req; Results := []; Conditions := [] |}.

(** [response.Fatal] adds a fatal result. *)
Definition Fatal (rsp : RunFunctionResponse) (err : error) : RunFunctionResponse :=
  {| Desired := Desired rsp;
     Results := Results rsp ++
       [ {| Severity_ := SEVERITY_FATAL; Message := err; ResultTarget := TARGET_COMPOSITE |} ];
     Conditions := Conditions rsp |}.

(** [response.ConditionTrue(rsp, typ, reason).TargetCompositeAndClaim()]. *)
Definition ConditionTrue_TargetCompositeAndClaim
  (rsp : RunFunctionResponse) (typ reason : string) : RunFunctionResponse :=
  {| Desired := Desired rsp;
     Results := Results rsp;
     Conditions := Conditions rsp ++
       [ {| Type_ := typ; Status_ := STATUS_CONDITION_TRUE; Reason := reason;
            ConditionTarget := TARGET_COMPOSITE_AND_CLAIM |} ] |}.

(** The response after [response.SetDesiredComposedResources(rsp, dcds)]. *)
Definition with_desired (rsp : RunFunctionResponse) (d : option State)
  : RunFunctionResponse :=
  {| Desired := d; Results := Results rsp; Conditions := Conditions rsp |}.

End helpers.
End response.

(** ** The handler *)
Section fn.
Context {J : JSON} {K : SDK}.

Definition convertViaJSON (to : composed.Unstructured) (from : gmap string value)
  : error + composed.Unstructured :=
  match json_Marshal from with
  | inl err => inl err
  | inr bs => json_Unmarshal bs to
  end.

(** What the loop carries from one iteration to the next: the desired map,
    which it writes while ranging over it, and [protectedCount]. *)
Definition loop_state : Type :=
  gmap resource.Name resource.DesiredComposed.t * nat.

(** The body of the loop over [desiredComposed] for one [(name, desired)];
    [inl] is the error the handler returns early with. *)
Definition loop_body
  (observedComposed : gmap resource.Name resource.ObservedComposed.t)
  (name : resource.Name) (desired : resource.DesiredComposed.t)
  (st : loop_state) : error + loop_state :=
  let '(desiredComposed, protectedCount) := st in
  match observedComposed !! name with
  | Some observed =>
      if ProtectResource (resource.DesiredComposed.Resource desired)
           ProtectionLabelBlockDeletion
         || ProtectResource (resource.ObservedComposed.Resource observed)
              ProtectionLabelBlockDeletion
      then
        let usage := GenerateUsage (resource.ObservedComposed.Resource observed) in
        match convertViaJSON composed.New usage with
        | inl err => inl (Wrap err "cannot convert usage to unstructured")
        | inr usageComposed =>
            let uname :=
              unstructured.GetName (resource.ObservedComposed.Resource observed)
                ++ "-protection" in
            inr (<[uname := {| resource.DesiredComposed.Resource := usageComposed;
                               resource.DesiredComposed.Ready := resource.ReadyUnspecified |}]>
                   desiredComposed,
                 protectedCount + 1)
        end
      else inr st
  | None => inr st
  end.

(** [for name, desired := range desiredComposed].  Go leaves the order of a
    map's keys unspecified, so the loop takes it as [order].  A key is
    produced with the value the map holds for it when it is reached; a key
    the map does not hold then produces nothing. *)
Fixpoint range_desiredComposed
  (order : list resource.Name)
  (observedComposed : gmap resource.Name resource.ObservedComposed.t)
  (st : loop_state) : error + loop_state :=
  match order with
  | [] => inr st
  | name :: rest =>
      match st.1 !! name with
      | Some desired =>
          match loop_body observedComposed name desired st with
          | inl err => inl err
          | inr st' => range_desiredComposed rest observedComposed st'
          end
      | None => range_desiredComposed rest observedComposed st
      end
  end.

(** The orders Go allows for a range over [m] whose body only adds and
    overwrites entries: every key of [m] is produced once, and an entry
    created during the iteration is produced once or skipped. *)
Definition range_order
  (m : gmap resource.Name resource.DesiredComposed.t) (order : list resource.Name)
  : Prop :=
  NoDup order ∧ ∀ name, is_Some (m !! name) → name ∈ order.

(** The block after the loop that protects the composite. *)
Definition protect_composite
  (observedComposite : resource.Composite.t) (st : loop_state)
  : error + gmap resource.Name resource.DesiredComposed.t :=
  let '(desiredComposed, protectedCount) := st in
  if ProtectXR (resource.Composite.Resource observedComposite)
     || (0 <? protectedCount)%nat
  then
    let usage := GenerateXRUsage (resource.Composite.Resource observedComposite) in
    match convertViaJSON composed.New usage with
    | inl err => inl (Wrap err "cannot convert usage to unstructured")
    | inr usageComposed =>
        let uname :=
          unstructured.GetName (resource.Composite.Resource observedComposite)
            ++ "-xr-protection" in
        inr (<[uname := {| resource.DesiredComposed.Resource := usageComposed;
                           resource.DesiredComposed.Ready := resource.ReadyUnspecified |}]>
               desiredComposed)
    end
  else inr desiredComposed.

(** The desired map the handler computes from what it retrieved: the loop
    over the members, then the composite. *)
Definition desired_output
  (order : list resource.Name)
  (observedComposite : resource.Composite.t)
  (observedComposed : gmap resource.Name resource.ObservedComposed.t)
  (desiredComposed : gmap resource.Name resource.DesiredComposed.t)
  : error + gmap resource.Name resource.DesiredComposed.t :=
  match range_desiredComposed order observedComposed (desiredComposed, 0%nat) with
  | inl err => inl err
  | inr st => protect_composite observedComposite st
  end.

(** [RunFunction] runs the function. *)
Definition RunFunction (order : list resource.Name) (req : RunFunctionRequest)
  : response.RunFunctionResponse :=
  let rsp := response.To req in
  match GetObservedCompositeResource req with
  | inl err => response.Fatal rsp (Wrap err "cannot get observed composite")
  | inr observedComposite =>
  match GetObservedComposedResources req with
  | inl err => response.Fatal rsp (Wrap err "cannot get observed resources")
  | inr observedComposed =>
  match GetDesiredComposedResources req with
  | inl err =>
      response.Fatal rsp
        (Wrap err "cannot get desired composed resources from *v1.RunFunctionRequest")
  | inr desiredComposed =>
  match desired_output order observedComposite observedComposed desiredComposed with
  | inl err => response.Fatal rsp err
  | inr desiredComposed' =>
  match SetDesiredComposedResources (response.Desired rsp) desiredComposed' with
  | (d, Some err) =>
      response.Fatal (response.with_desired rsp d)
        (Wrap err "cannot set desired resources")
  | (d, None) =>
      response.ConditionTrue_TargetCompositeAndClaim
        (response.with_desired rsp d) "FunctionSuccess" "Success"
  end end end end end.

End fn.

(** ** Notions the properties are stated with *)

(** [usage] is a usage record for [u]: the fixed group and version, the
    kind and the reference selected by [u]'s namespace, the derived
    [metadata.name], and [spec.of] pointing at [u]. *)
Definition references (u : unstructured.Unstructured) (usage : gmap string value) : Prop :=
  let name := unstructured.GetName u in
  let namespace := unstructured.GetNamespace u in
  usage !! "apiVersion" = Some (VString "protection.crossplane.io/v1beta1") ∧
  usage !! "kind" =
    Some (VString (if decide (namespace = "") then "ClusterUsage" else "Usage")) ∧
  usage !! "metadata" =
    Some (VMap {[ "name" := VString (name ++ "-function-protection") ]}) ∧
  fieldpath.GetValue (VMap usage) ["spec"; "of"] = inr (VMap
    {[ "apiVersion" := VString (unstructured.GetAPIVersion u);
       "kind" := VString (unstructured.GetKind u);
       "resourceRef" := VMap
         (if decide (namespace = "")
          then {[ "name" := VString name ]}
          else {[ "name" := VString name; "namespace" := VString namespace ]}) ]}).

(** [usage] with its [spec.reason] replaced. *)
Definition with_reason (reason : string) (usage : gmap string value) : gmap string value :=
  alter (λ spec, match spec with
                 | VMap m => VMap (<["reason" := VString reason]> m)
                 | _ => spec
                 end) "spec" usage.

Definition reason_of (usage : gmap string value) : error + value :=
  fieldpath.GetValue (VMap usage) ["spec"; "reason"].

Definition is_inr {A B : Type} (r : A + B) : bool :=
  match r with inr _ => true | inl _ => false end.

(** The entry the handler stores for a converted usage. *)
Definition usage_entry (usageComposed : composed.Unstructured) : resource.DesiredComposed.t :=
  {| resource.DesiredComposed.Resource := usageComposed;
     resource.DesiredComposed.Ready := resource.ReadyUnspecified |}.

(** The key of the usage record of an observed member. *)
Definition usage_key (observed : resource.ObservedComposed.t) : resource.Name :=
  unstructured.GetName (resource.ObservedComposed.Resource observed) ++ "-protection".

(** The key of the usage record of the composite. *)
Definition xr_usage_key (observedComposite : resource.Composite.t) : resource.Name :=
  unstructured.GetName (resource.Composite.Resource observedComposite) ++ "-xr-protection".

(** The loop's test on a desired and an observed copy. *)
Definition labelled
  (desired : resource.DesiredComposed.t) (observed : resource.ObservedComposed.t) : bool :=
  ProtectResource (resource.DesiredComposed.Resource desired) ProtectionLabelBlockDeletion
  || ProtectResource (resource.ObservedComposed.Resource observed) ProtectionLabelBlockDeletion.

(** [name] is a member that the handler protects when it meets it as the
    input has it: it is in both sets and one of its copies is labelled. *)
Definition protected
  (desiredComposed : gmap resource.Name resource.DesiredComposed.t)
  (observedComposed : gmap resource.Name resource.ObservedComposed.t)
  (name : resource.Name) (observed : resource.ObservedComposed.t) : Prop :=
  ∃ desired, desiredComposed !! name = Some desired ∧
             observedComposed !! name = Some observed ∧
             labelled desired observed = true.

(** Two objects that differ at most in the presence or the string value of
    the label [protection.fn.crossplane.io/enabled]. *)
Definition string_or_absent (v : option value) : Prop :=
  match v with
  | Some (VString _) | None => True
  | Some _ => False
  end.

Definition same_but_enabled (u1 u2 : unstructured.Unstructured) : Prop :=
  u1 = u2 ∨
  ∃ object metadata labels1 labels2,
    unstructured.Object u1 =
      Some (<["metadata" := VMap (<["labels" := VMap labels1]> metadata)]> object) ∧
    unstructured.Object u2 =
      Some (<["metadata" := VMap (<["labels" := VMap labels2]> metadata)]> object) ∧
    (∀ k, k ≠ ProtectionLabelEnabled → labels1 !! k = labels2 !! k) ∧
    string_or_absent (labels1 !! ProtectionLabelEnabled) ∧
    string_or_absent (labels2 !! ProtectionLabelEnabled).

Definition same_composite_but_enabled (c1 c2 : resource.Composite.t) : Prop :=
  same_but_enabled (resource.Composite.Resource c1) (resource.Composite.Resource c2) ∧
  resource.Composite.ConnectionDetails c1 = resource.Composite.ConnectionDetails c2.

Definition same_observed_but_enabled (o1 o2 : resource.ObservedComposed.t) : Prop :=
  same_but_enabled (resource.ObservedComposed.Resource o1)
    (resource.ObservedComposed.Resource o2) ∧
  resource.ObservedComposed.ConnectionDetails o1 =
    resource.ObservedComposed.ConnectionDetails o2.

Definition same_desired_but_enabled (d1 d2 : resource.DesiredComposed.t) : Prop :=
  same_but_enabled (resource.DesiredComposed.Resource d1)
    (resource.DesiredComposed.Resource d2) ∧
  resource.DesiredComposed.Ready d1 = resource.DesiredComposed.Ready d2.

Section notions.
Context {J : JSON}.

(** The keys the loop writes, in the order it writes them. *)
Fixpoint loop_keys
  (order : list resource.Name)
  (observedComposed : gmap resource.Name resource.ObservedComposed.t)
  (st : loop_state) : list resource.Name :=
  match order with
  | [] => []
  | name :: rest =>
      match st.1 !! name with
      | Some desired =>
          match loop_body observedComposed name desired st with
          | inl _ => []
          | inr st' =>
              match observedComposed !! name with
              | Some observed =>
                  if labelled desired observed
                  then usage_key observed :: loop_keys rest observedComposed st'
                  else loop_keys rest observedComposed st'
              | None => loop_keys rest observedComposed st'
              end
          end
      | None => loop_keys rest observedComposed st
      end
  end.

(** The keys the handler synthesizes in a run: those of the loop, then the
    composite's if it is protected. *)
Definition synthesized_keys
  (order : list resource.Name)
  (observedComposite : resource.Composite.t)
  (observedComposed : gmap resource.Name resource.ObservedComposed.t)
  (desiredComposed : gmap resource.Name resource.DesiredComposed.t)
  : list resource.Name :=
  loop_keys order observedComposed (desiredComposed, 0%nat) ++
  match range_desiredComposed order observedComposed (desiredComposed, 0%nat) with
  | inr (_, protectedCount) =>
      if ProtectXR (resource.Composite.Resource observedComposite)
         || (0 <? protectedCount)%nat
      then [xr_usage_key observedComposite]
      else []
  | inl _ => []
  end.

(** What an iteration on [name] does to the loop's state when it meets
    [name] as the input has it and the conversion succeeds. *)
Definition member_step
  (desiredComposed : gmap resource.Name resource.DesiredComposed.t)
  (observedComposed : gmap resource.Name resource.ObservedComposed.t)
  (st : loop_state) (name : resource.Name) : loop_state :=
  match desiredComposed !! name, observedComposed !! name with
  | Some desired, Some observed =>
      if labelled desired observed
      then match convertViaJSON composed.New
                   (GenerateUsage (resource.ObservedComposed.Resource observed)) with
           | inr usageComposed =>
               (<[usage_key observed := usage_entry usageComposed]> st.1, S st.2)
           | inl _ => st
           end
      else st
  | _, _ => st
  end.

(** The iteration on [name], met as the input has it, fails. *)
Definition member_fails
  (desiredComposed : gmap resource.Name resource.DesiredComposed.t)
  (observedComposed : gmap resource.Name resource.ObservedComposed.t)
  (name : resource.Name) : bool :=
  match desiredComposed !! name, observedComposed !! name with
  | Some desired, Some observed =>
      labelled desired observed &&
      match convertViaJSON composed.New
              (GenerateUsage (resource.ObservedComposed.Resource observed)) with
      | inr _ => false
      | inl _ => true
      end
  | _, _ => false
  end.
(** The entries of the input are still in the loop's map, and whatever
    else the map holds is not observed. *)
Definition input_kept
  (desiredComposed : gmap resource.Name resource.DesiredComposed.t)
  (observedComposed : gmap resource.Name resource.ObservedComposed.t)
  (st : loop_state) : Prop :=
  (∀ k d, desiredComposed !! k = Some d → st.1 !! k = Some d) ∧
  (∀ k, desiredComposed !! k = None → is_Some (st.1 !! k) → observedComposed !! k = None).

(** Two desired maps agree at every key where they do not both still hold
    what their inputs [desired1] and [desired2] held. *)
Definition agree_or_input
  (desired1 desired2 m1 m2 : gmap resource.Name resource.DesiredComposed.t) : Prop :=
  ∀ k, m1 !! k = m2 !! k ∨ (m1 !! k = desired1 !! k ∧ m2 !! k = desired2 !! k).

End notions.

(** ** A concrete SDK, to run the handler on examples *)
Module model.

(** A codec under which a document survives the round trip unchanged, as
    it does through [encoding/json] when its strings are valid UTF-8: the
    bytes are represented by the document they encode, and unmarshalling
    replaces the target's object. *)
#[export] Instance json : JSON :=
  {| bytes := gmap string value;
     json_Marshal := λ from, inr from;
     json_Unmarshal := λ bs _, inr {| composed.embedded := {| unstructured.Object := Some bs |} |} |}.

(** The same codec, except that it refuses to marshal the usage whose
    [metadata.name] is [bad]. *)
Definition failing_json (bad : string) : JSON :=
  {| bytes := gmap string value;
     json_Marshal := λ from,
       match fieldpath.GetValue (VMap from) ["metadata"; "name"] with
       | inr (VString s) =>
           if String.eqb s bad then inl "json: unsupported value" else inr from
       | _ => inr from
       end;
     json_Unmarshal := λ bs _, inr {| composed.embedded := {| unstructured.Object := Some bs |} |} |}.

(** A request is what the SDK's accessors return for it. *)
Record Request : Type :=
  { desired : option (gmap resource.Name resource.DesiredComposed.t);
    observed_composite : error + resource.Composite.t;
    observed_composed : error + gmap resource.Name resource.ObservedComposed.t;
    desired_composed : error + gmap resource.Name resource.DesiredComposed.t }.

(** The desired state is the map of desired composed resources, which
    [SetDesiredComposedResources] replaces. *)
#[export] Instance sdk : SDK :=
  {| RunFunctionRequest := Request;
     State := gmap resource.Name resource.DesiredComposed.t;
     GetDesired := desired;
     GetObservedCompositeResource := observed_composite;
     GetObservedComposedResources := observed_composed;
     GetDesiredComposedResources := desired_composed;
     SetDesiredComposedResources := λ _ dcds, (Some dcds, None) |}.

(** An object with the given top-level fields and metadata. *)
Definition object (apiVersion kind name namespace : string)
  (labels : gmap string value) : unstructured.Unstructured :=
  {| unstructured.Object := Some
       {[ "apiVersion" := VString apiVersion;
          "kind" := VString kind;
          "metadata" := VMap
            {[ "name" := VString name;
               "namespace" := VString namespace;
               "labels" := VMap labels ]} ]} |}.

Definition block_deletion (val : string) : gmap string value :=
  {[ ProtectionLabelBlockDeletion := VString val ]}.

Definition desired_of (u : unstructured.Unstructured) : resource.DesiredComposed.t :=
  {| resource.DesiredComposed.Resource := {| composed.embedded := u |};
     resource.DesiredComposed.Ready := resource.ReadyUnspecified |}.

Definition observed_of (u : unstructured.Unstructured) : resource.ObservedComposed.t :=
  {| resource.ObservedComposed.Resource := {| composed.embedded := u |};
     resource.ObservedComposed.ConnectionDetails := ∅ |}.

Definition composite_of (u : unstructured.Unstructured) : resource.Composite.t :=
  {| resource.Composite.Resource := {| composite.embedded := u |};
     resource.Composite.ConnectionDetails := ∅ |}.

(** The scenario of the specification: a cluster-scoped composite [db-1]
    and a namespaced, labelled member [m1] named [inst-1]. *)
Definition db1 : unstructured.Unstructured :=
  object "example.org/v1" "XDatabase" "db-1" "" ∅.
Definition inst1 : unstructured.Unstructured :=
  object "example.org/v1" "Instance" "inst-1" "ns1" (block_deletion "true").
Definition inst1_unlabelled : unstructured.Unstructured :=
  object "example.org/v1" "Instance" "inst-1" "ns1" ∅.


(** Two labelled cluster-scoped objects of different kinds with one name. *)
Definition bucket_x : unstructured.Unstructured :=
  object "s3.example.org/v1" "Bucket" "x" "" (block_deletion "True").
Definition role_x : unstructured.Unstructured :=
  object "iam.example.org/v1" "Role" "x" "" (block_deletion "true").

(** [inst1] with the label [protection.fn.crossplane.io/enabled] as well. *)
Definition inst1_enabled : unstructured.Unstructured :=
  object "example.org/v1" "Instance" "inst-1" "ns1"
    {[ ProtectionLabelBlockDeletion := VString "true";
       ProtectionLabelEnabled := VString "true" ]}.

(** A labelled member whose name is the composite's followed by [-xr]. *)
Definition inst_xr : unstructured.Unstructured :=
  object "example.org/v1" "Instance" "db-1-xr" "ns1" (block_deletion "true").

(** A request whose three retrievals succeed. *)
Definition request_of
  (observedComposite : unstructured.Unstructured)
  (observedComposed : gmap resource.Name resource.ObservedComposed.t)
  (desiredComposed : gmap resource.Name resource.DesiredComposed.t) : Request :=
  {| desired := Some desiredComposed;
     observed_composite := inr (composite_of observedComposite);
     observed_composed := inr observedComposed;
     desired_composed := inr desiredComposed |}.

(** The usage entry the handler stores for a member under [json]. *)
Definition member_entry (u : unstructured.Unstructured) : resource.DesiredComposed.t :=
  usage_entry
    {| composed.embedded :=
         {| unstructured.Object := Some (GenerateUsage {| composed.embedded := u |}) |} |}.

(** The usage entry the handler stores for the composite under [json]. *)
Definition composite_entry (u : unstructured.Unstructured) : resource.DesiredComposed.t :=
  usage_entry
    {| composed.embedded :=
         {| unstructured.Object := Some (GenerateXRUsage {| composite.embedded := u |}) |} |}.

End model.

(** * Properties *)

(** ** The label check *)

Lemma EqualFold_ToLower (s t : string) :
  strings.EqualFold s t = true ↔ strings.ToLower s = strings.ToLower t.
Proof.
  revert t. induction s as [|a s IH]; intros [|b t]; simpl; try (split; congruence).
  rewrite andb_true_iff, Ascii.eqb_eq, IH. split.
  - intros [-> ->]. reflexivity.
  - intros [= -> ->]. auto.
Qed.

Lemma GetValue_labels (object : gmap string value) (v : value) :
  fieldpath.GetValue (VMap object) ["metadata"; "labels"] = inr v ↔
  ∃ metadata, object !! "metadata" = Some (VMap metadata) ∧ metadata !! "labels" = Some v.
Proof.
  simpl. split.
  - destruct (object !! "metadata") as [[| | | | |metadata]|] eqn:Hm; try discriminate.
    destruct (metadata !! "labels") as [w|] eqn:Hl; try discriminate.
    intros [= ->]. eauto.
  - intros (metadata & -> & ->). reflexivity.
Qed.

Lemma MatchLabel_true (u : composed.Unstructured) (label : string) :
  MatchLabel u label = true ↔
  ∃ object metadata labels val,
    unstructured.Object u = Some object ∧
    object !! "metadata" = Some (VMap metadata) ∧
    metadata !! "labels" = Some (VMap labels) ∧
    labels !! label = Some (VString val) ∧
    strings.EqualFold val "true" = true.
Proof.
  unfold MatchLabel, fieldpath.GetValueInto_map. split.
  - destruct (unstructured.Object u) as [object|]; [|discriminate].
    destruct (fieldpath.GetValue (VMap object) ["metadata"; "labels"]) as [e|v] eqn:Hv;
      [discriminate|].
    apply GetValue_labels in Hv as (metadata & Hm & Hl).
    destruct v as [| | | | |labels]; try discriminate.
    destruct (labels !! label) as [[| | |val| |]|] eqn:Hval; try discriminate.
    simpl. intros Hf. exists object, metadata, labels, val. auto.
  - intros (object & metadata & labels & val & -> & Hm & Hl & Hval & Hf).
    assert (Hv : fieldpath.GetValue (VMap object) ["metadata"; "labels"] = inr (VMap labels))
      by (apply GetValue_labels; eauto).
    rewrite Hv, Hval. exact Hf.
Qed.

Lemma root_object u object :
  unstructured.Object u = Some object → unstructured.root u = VMap object.
Proof. intros Hu. unfold unstructured.root. rewrite Hu. reflexivity. Qed.

Lemma NestedFieldNoCopy_map m field rest :
  unstructured.NestedFieldNoCopy (VMap m) (field :: rest) =
  match m !! field with
  | Some v => unstructured.NestedFieldNoCopy v rest
  | None => inr None
  end.
Proof. reflexivity. Qed.

Lemma GetValue_map object field rest :
  fieldpath.GetValue (VMap object) (field :: rest) =
  match object !! field with
  | Some v => fieldpath.GetValue v rest
  | None => inl (field ++ ": no such field")
  end.
Proof. reflexivity. Qed.

Lemma string_map_lookup (m : gmap string value) k :
  default ∅ (unstructured.string_map m) !! k =
  if decide (map_Forall (λ _ v, is_Some (as_string v)) m) then m !! k ≫= as_string else None.
Proof.
  unfold unstructured.string_map. case_decide; simpl.
  - apply lookup_omap.
  - apply lookup_empty.
Qed.

(** [ProtectXR] answers true exactly when the composite's labels are a map
    of strings that holds the key with a value equal to ["true"] up to case. *)
Lemma ProtectXR_true (dc : composite.Unstructured) :
  ProtectXR dc = true ↔
  ∃ object metadata labels val,
    unstructured.Object dc = Some object ∧
    object !! "metadata" = Some (VMap metadata) ∧
    metadata !! "labels" = Some (VMap labels) ∧
    map_Forall (λ _ v, is_Some (as_string v)) labels ∧
    labels !! ProtectionLabelBlockDeletion = Some (VString val) ∧
    strings.EqualFold val "true" = true.
Proof.
  unfold ProtectXR, unstructured.GetLabels, unstructured.root. split.
  - destruct (unstructured.Object dc) as [object|]; [|discriminate].
    cbn [default from_option id]. rewrite NestedFieldNoCopy_map.
    destruct (object !! "metadata") as [[| | | | |metadata]|] eqn:Hm; try discriminate.
    rewrite NestedFieldNoCopy_map.
    destruct (metadata !! "labels") as [[| | | | |labels]|] eqn:Hl; try discriminate.
    cbn [unstructured.NestedFieldNoCopy]. rewrite string_map_lookup.
    destruct (decide (map_Forall (λ _ v, is_Some (as_string v)) labels)) as [Hall|];
      [|discriminate].
    destruct (labels !! ProtectionLabelBlockDeletion) as [[| | |val| |]|] eqn:Hval;
      try discriminate.
    simpl. intros Hf. exists object, metadata, labels, val. auto 10.
  - intros (object & metadata & labels & val & -> & Hm & Hl & Hall & Hval & Hf).
    cbn [default from_option id]. rewrite NestedFieldNoCopy_map, Hm.
    rewrite NestedFieldNoCopy_map, Hl. cbn [unstructured.NestedFieldNoCopy].
    rewrite string_map_lookup, decide_True by exact Hall. rewrite Hval. exact Hf.
Qed.

Example EqualFold_any_case :
  strings.EqualFold "true" "true" = true ∧ strings.EqualFold "TRUE" "true" = true ∧
  strings.EqualFold "True" "true" = true ∧ strings.EqualFold "yes" "true" = false ∧
  strings.EqualFold "true " "true" = false.
Proof. repeat split; reflexivity. Qed.

(** The key is compared exactly: a key in another case does not match. *)
Example MatchLabel_key_exact :
  MatchLabel
    {| composed.embedded := model.object "v1" "K" "n" ""
         {[ "protection.fn.crossplane.io/Block-Deletion" := VString "true" ]} |}
    ProtectionLabelBlockDeletion = false.
Proof. reflexivity. Qed.

(** Malformed objects: no object at all, no labels, labels that are not a
    map, a label whose value is not a string. *)
Example MatchLabel_malformed :
  MatchLabel {| composed.embedded := {| unstructured.Object := None |} |}
    ProtectionLabelBlockDeletion = false ∧
  MatchLabel composed.New ProtectionLabelBlockDeletion = false ∧
  MatchLabel
    {| composed.embedded :=
         {| unstructured.Object := Some {[ "metadata" := VMap {[ "labels" := VString "true" ]} ]} |} |}
    ProtectionLabelBlockDeletion = false ∧
  MatchLabel
    {| composed.embedded := model.object "v1" "K" "n" ""
         {[ ProtectionLabelBlockDeletion := VBool true ]} |}
    ProtectionLabelBlockDeletion = false.
Proof. repeat split; reflexivity. Qed.

Section loop.
Context {J : JSON}.

(** An iteration on a member that is not observed, or neither of whose
    copies is labelled, changes nothing. *)
Lemma loop_body_skip observedComposed name desired st :
  (∀ observed, observedComposed !! name = Some observed →
               labelled desired observed = false) →
  loop_body observedComposed name desired st = inr st.
Proof.
  intros Hno. unfold loop_body. destruct st as [m c].
  destruct (observedComposed !! name) as [observed|]; [|reflexivity].
  specialize (Hno observed eq_refl). unfold labelled in Hno. rewrite Hno. reflexivity.
Qed.

(** An iteration on a member that is observed and labelled stores the
    converted usage of the observed copy, or fails with the conversion. *)
Lemma loop_body_protect observedComposed name desired observed m c :
  observedComposed !! name = Some observed →
  labelled desired observed = true →
  loop_body observedComposed name desired (m, c) =
  match convertViaJSON composed.New
          (GenerateUsage (resource.ObservedComposed.Resource observed)) with
  | inl err => inl (Wrap err "cannot convert usage to unstructured")
  | inr usageComposed =>
      inr (<[usage_key observed := usage_entry usageComposed]> m, S c)
  end.
Proof.
  intros Ho Hl. unfold loop_body. rewrite Ho. unfold labelled in Hl. rewrite Hl.
  destruct (convertViaJSON _ _); [reflexivity|].
  unfold usage_key, usage_entry. repeat f_equal. lia.
Qed.

(** C5. The label check [MatchLabel] answers true exactly when the object
    has a [metadata.labels] map that holds the given key with a string
    value equal to ["true"] up to case.  In every other case (no object, no
    labels, labels or a label value of the wrong type, another value) it
    answers false, it has no error to raise, and the loop goes on with the
    remaining resources from an unchanged state. *)
Theorem MatchLabel_spec :
  (∀ (u : composed.Unstructured) (label : string),
     MatchLabel u label = true ↔
     ∃ object metadata labels val,
       unstructured.Object u = Some object ∧
       object !! "metadata" = Some (VMap metadata) ∧
       metadata !! "labels" = Some (VMap labels) ∧
       labels !! label = Some (VString val) ∧
       strings.ToLower val = "true") ∧
  (∀ (u : composed.Unstructured) (label : string),
     MatchLabel u label = true ∨ MatchLabel u label = false) ∧
  (∀ observedComposed name rest desired (st : loop_state),
     st.1 !! name = Some desired →
     MatchLabel (resource.DesiredComposed.Resource desired)
       ProtectionLabelBlockDeletion = false →
     (∀ observed, observedComposed !! name = Some observed →
        MatchLabel (resource.ObservedComposed.Resource observed)
          ProtectionLabelBlockDeletion = false) →
     range_desiredComposed (name :: rest) observedComposed st =
     range_desiredComposed rest observedComposed st).
Proof.
  split; [|split].
  - intros u label. rewrite MatchLabel_true.
    split; intros (object & metadata & labels & val & ? & ? & ? & ? & Hf);
      exists object, metadata, labels, val; repeat split; try assumption.
    + apply EqualFold_ToLower in Hf. exact Hf.
    + apply EqualFold_ToLower. exact Hf.
  - intros u label. destruct (MatchLabel u label); auto.
  - intros observedComposed name rest desired st Hd Hdes Hobs. simpl. rewrite Hd.
    rewrite loop_body_skip; [reflexivity|].
    intros observed Ho. unfold labelled, ProtectResource.
    rewrite Hdes, (Hobs observed Ho). reflexivity.
Qed.

End loop.

(** ** The usage records *)

Lemma GenerateUsage_references (u : composed.Unstructured) :
  references u (GenerateUsage u).
Proof.
  unfold references, GenerateUsage.
  destruct (decide (unstructured.GetNamespace u = "")) as [Hns|Hns];
    repeat split; reflexivity.
Qed.

Lemma GenerateXRUsage_references (u : composite.Unstructured) :
  references u (GenerateXRUsage u).
Proof.
  unfold references, GenerateXRUsage.
  destruct (decide (unstructured.GetNamespace u = "")) as [Hns|Hns];
    repeat split; reflexivity.
Qed.

(** C4. For every protected resource, member or composite, the generated
    usage record has the fixed group and version as [apiVersion], the
    [metadata.name] [<name>-function-protection], and a kind and a resource
    reference selected by the namespace alone: [ClusterUsage] referring to
    the name when the namespace is empty, [Usage] referring to name and
    namespace otherwise. *)
Theorem Generate_references :
  ProtectionGroupVersion = "protection.crossplane.io/v1beta1" ∧
  ∀ u : unstructured.Unstructured,
    references u (GenerateUsage {| composed.embedded := u |}) ∧
    references u (GenerateXRUsage {| composite.embedded := u |}).
Proof.
  split; [reflexivity|]. intros u. split.
  - apply (GenerateUsage_references {| composed.embedded := u |}).
  - apply (GenerateXRUsage_references {| composite.embedded := u |}).
Qed.

(** C9. On every object the two generators return the same record up to
    the reason: the same [apiVersion], [kind], [metadata] and [spec.of],
    records that become equal once their [spec.reason] is replaced by a
    common text, and two different fixed reasons. *)
Theorem Generate_same_but_reason (u : unstructured.Unstructured) :
  let member := GenerateUsage {| composed.embedded := u |} in
  let primary := GenerateXRUsage {| composite.embedded := u |} in
  member !! "apiVersion" = primary !! "apiVersion" ∧
  member !! "kind" = primary !! "kind" ∧
  member !! "metadata" = primary !! "metadata" ∧
  fieldpath.GetValue (VMap member) ["spec"; "of"] =
    fieldpath.GetValue (VMap primary) ["spec"; "of"] ∧
  (∀ reason, with_reason reason member = with_reason reason primary) ∧
  reason_of member = inr (VString
    "Created by function-deletion-protection via label protection.fn.crossplane.io/block-deletion") ∧
  reason_of primary = inr (VString
    "deletion blocked by function-deletion-protection via label protection.fn.crossplane.io/block-deletion").
Proof.
  unfold with_reason, reason_of, GenerateUsage, GenerateXRUsage. simpl.
  destruct (decide (unstructured.GetNamespace u = "")) as [Hns|Hns];
    repeat split; reflexivity.
Qed.

Section members.
Context {J : JSON}.

(** One iteration.  When the loop runs its body on a member [name] with
    the desired copy the map holds for it, it adds a usage record exactly
    when [name]
    is also in the observed set and the block-deletion label is true on the
    desired or on the observed copy.  The record is generated from the
    observed copy, it refers to the observed copy's apiVersion, kind, name
    and namespace, and the converted record is stored under the observed
    name followed by [-protection]. *)
Theorem member_usage observedComposed name desired m c :
  (loop_body observedComposed name desired (m, c) = inr (m, c) ↔
   ¬ ∃ observed,
       observedComposed !! name = Some observed ∧
       (MatchLabel (resource.DesiredComposed.Resource desired)
          ProtectionLabelBlockDeletion = true ∨
        MatchLabel (resource.ObservedComposed.Resource observed)
          ProtectionLabelBlockDeletion = true)) ∧
  (∀ observed,
     observedComposed !! name = Some observed →
     MatchLabel (resource.DesiredComposed.Resource desired)
       ProtectionLabelBlockDeletion = true ∨
     MatchLabel (resource.ObservedComposed.Resource observed)
       ProtectionLabelBlockDeletion = true →
     let usage := GenerateUsage (resource.ObservedComposed.Resource observed) in
     references (resource.ObservedComposed.Resource observed) usage ∧
     ∀ usageComposed,
       convertViaJSON composed.New usage = inr usageComposed →
       loop_body observedComposed name desired (m, c) =
       inr (<[unstructured.GetName (resource.ObservedComposed.Resource observed)
                ++ "-protection" :=
              {| resource.DesiredComposed.Resource := usageComposed;
                 resource.DesiredComposed.Ready := resource.ReadyUnspecified |}]> m,
            S c)).
Proof.
  assert (Hlab : ∀ observed,
    labelled desired observed = true ↔
    MatchLabel (resource.DesiredComposed.Resource desired)
      ProtectionLabelBlockDeletion = true ∨
    MatchLabel (resource.ObservedComposed.Resource observed)
      ProtectionLabelBlockDeletion = true).
  { intros observed. unfold labelled, ProtectResource. apply orb_true_iff. }
  split.
  - split.
    + intros Heq (observed & Ho & Hl). apply Hlab in Hl.
      rewrite (loop_body_protect _ _ _ _ _ _ Ho Hl) in Heq.
      destruct (convertViaJSON _ _); [discriminate|].
      injection Heq as _ Hc. lia.
    + intros Hno. apply loop_body_skip. intros observed Ho.
      destruct (labelled desired observed) eqn:Hl; [|reflexivity].
      exfalso. apply Hno. exists observed. split; [exact Ho|]. apply Hlab, Hl.
  - intros observed Ho Hl. split.
    + apply GenerateUsage_references.
    + intros usageComposed Hconv. apply Hlab in Hl.
      rewrite (loop_body_protect _ _ _ _ _ _ Ho Hl). cbv zeta in Hconv.
      rewrite Hconv. reflexivity.
Qed.

(** C2. When the loop has ended with a desired map and a protected count,
    the handler adds one usage record for the composite, under the
    composite's name followed by [-xr-protection] and referring to the
    composite, if the composite carries the block-deletion label with a
    true value or the count is positive; if neither holds it adds none.
    The composite carries the label when its labels, a map of strings,
    hold the key with a value equal to ["true"] up to case. *)
Theorem composite_usage order observedComposite observedComposed desiredComposed m c :
  range_desiredComposed order observedComposed (desiredComposed, 0%nat) = inr (m, c) →
  (ProtectXR (resource.Composite.Resource observedComposite) = false → c = 0%nat →
   desired_output order observedComposite observedComposed desiredComposed = inr m) ∧
  (ProtectXR (resource.Composite.Resource observedComposite) = true ∨ (0 < c)%nat →
   let usage := GenerateXRUsage (resource.Composite.Resource observedComposite) in
   references (resource.Composite.Resource observedComposite) usage ∧
   ∀ usageComposed,
     convertViaJSON composed.New usage = inr usageComposed →
     desired_output order observedComposite observedComposed desiredComposed =
     inr (<[unstructured.GetName (resource.Composite.Resource observedComposite)
              ++ "-xr-protection" :=
            {| resource.DesiredComposed.Resource := usageComposed;
               resource.DesiredComposed.Ready := resource.ReadyUnspecified |}]> m)) ∧
  (ProtectXR (resource.Composite.Resource observedComposite) = true ↔
   ∃ object metadata labels val,
     unstructured.Object (resource.Composite.Resource observedComposite) = Some object ∧
     object !! "metadata" = Some (VMap metadata) ∧
     metadata !! "labels" = Some (VMap labels) ∧
     map_Forall (λ _ v, is_Some (as_string v)) labels ∧
     labels !! ProtectionLabelBlockDeletion = Some (VString val) ∧
     strings.EqualFold val "true" = true).
Proof.
  intros Hloop. unfold desired_output. rewrite Hloop. unfold protect_composite.
  split; [|split; [|apply ProtectXR_true]].
  - intros -> ->. reflexivity.
  - intros Hcond. split; [apply GenerateXRUsage_references|].
    intros usageComposed Hconv. cbv zeta in Hconv. rewrite Hconv.
    assert (Hb : ProtectXR (resource.Composite.Resource observedComposite)
                 || (0 <? c)%nat = true).
    { apply orb_true_iff. destruct Hcond as [Hx|Hc]; [left; exact Hx|right].
      apply Nat.ltb_lt. exact Hc. }
    rewrite Hb. reflexivity.
Qed.

(** C10. Two distinct members that are both protected and whose observed
    copies carry the same [metadata.name] write the same key, the observed
    name followed by [-protection]: after the two iterations the desired
    map has gained that one key, holding the record of the member met
    last, while the protected count has grown by two. *)
Theorem same_observed_name observedComposed n1 n2 d1 d2 o1 o2 u1 u2 m c :
  n1 ≠ n2 →
  m !! n1 = Some d1 → m !! n2 = Some d2 →
  observedComposed !! n1 = Some o1 → observedComposed !! n2 = Some o2 →
  labelled d1 o1 = true → labelled d2 o2 = true →
  unstructured.GetName (resource.ObservedComposed.Resource o1) =
    unstructured.GetName (resource.ObservedComposed.Resource o2) →
  n2 ≠ usage_key o1 →
  convertViaJSON composed.New (GenerateUsage (resource.ObservedComposed.Resource o1)) = inr u1 →
  convertViaJSON composed.New (GenerateUsage (resource.ObservedComposed.Resource o2)) = inr u2 →
  usage_key o2 = usage_key o1 ∧
  range_desiredComposed [n1; n2] observedComposed (m, c) =
    inr (<[usage_key o1 := usage_entry u2]> m, (c + 2)%nat) ∧
  dom (<[usage_key o1 := usage_entry u2]> m) = {[ usage_key o1 ]} ∪ dom m.
Proof.
  intros Hne Hd1 Hd2 Ho1 Ho2 Hl1 Hl2 Hname Hkey Hu1 Hu2.
  assert (Hk : usage_key o2 = usage_key o1) by (unfold usage_key; rewrite Hname; reflexivity).
  split; [exact Hk|]. split; [|apply dom_insert_L].
  cbn [range_desiredComposed fst]. rewrite Hd1.
  rewrite (loop_body_protect _ _ _ _ _ _ Ho1 Hl1), Hu1. cbn [fst].
  rewrite lookup_insert_ne by congruence. rewrite Hd2.
  rewrite (loop_body_protect _ _ _ _ _ _ Ho2 Hl2), Hu2.
  rewrite Hk, insert_insert_eq. repeat f_equal. lia.
Qed.

End members.

Lemma member_usage_witness :
  let observedComposed : gmap resource.Name resource.ObservedComposed.t :=
    {[ "m1" := model.observed_of model.inst1_unlabelled ]} in
  let desired := model.desired_of model.inst1 in
  observedComposed !! "m1" = Some (model.observed_of model.inst1_unlabelled) ∧
  MatchLabel (resource.DesiredComposed.Resource desired) ProtectionLabelBlockDeletion = true ∧
  loop_body (J := model.json) observedComposed "m1" desired (∅, 0%nat) =
    inr ({[ "inst-1-protection" := model.member_entry model.inst1_unlabelled ]}, 1%nat).
Proof.
  split; [reflexivity|]. split; [reflexivity|].
  exact (proj2 (proj2 (member_usage (J := model.json)
                 {[ "m1" := model.observed_of model.inst1_unlabelled ]} "m1"
                 (model.desired_of model.inst1) ∅ 0%nat)
               (model.observed_of model.inst1_unlabelled) eq_refl (or_introl eq_refl))
          _ eq_refl).
Defined.

Lemma composite_usage_witness :
  let observedComposed : gmap resource.Name resource.ObservedComposed.t :=
    {[ "m1" := model.observed_of model.inst1_unlabelled ]} in
  let desiredComposed : gmap resource.Name resource.DesiredComposed.t :=
    {[ "m1" := model.desired_of model.inst1 ]} in
  let m := <["inst-1-protection" := model.member_entry model.inst1_unlabelled]> desiredComposed in
  range_desiredComposed (J := model.json) ["m1"] observedComposed (desiredComposed, 0%nat) =
    inr (m, 1%nat) ∧
  desired_output (J := model.json) ["m1"] (model.composite_of model.db1)
    observedComposed desiredComposed =
    inr (<["db-1-xr-protection" := model.composite_entry model.db1]> m).
Proof.
  split; [vm_compute; reflexivity|].
  exact (proj2 (proj1 (proj2 (composite_usage (J := model.json) ["m1"] (model.composite_of model.db1)
                 {[ "m1" := model.observed_of model.inst1_unlabelled ]}
                 {[ "m1" := model.desired_of model.inst1 ]}
                 (<["inst-1-protection" := model.member_entry model.inst1_unlabelled]>
                    {[ "m1" := model.desired_of model.inst1 ]}) 1%nat eq_refl))
               (or_intror (Nat.lt_0_succ 0)))
          _ eq_refl).
Defined.

Lemma same_observed_name_witness :
  let observedComposed : gmap resource.Name resource.ObservedComposed.t :=
    {[ "a" := model.observed_of model.bucket_x; "b" := model.observed_of model.role_x ]} in
  let m : gmap resource.Name resource.DesiredComposed.t :=
    {[ "a" := model.desired_of model.bucket_x; "b" := model.desired_of model.role_x ]} in
  range_desiredComposed (J := model.json) ["a"; "b"] observedComposed (m, 0%nat) =
    inr (<["x-protection" := model.member_entry model.role_x]> m, 2%nat).
Proof.
  refine (proj1 (proj2 (same_observed_name (J := model.json)
    {[ "a" := model.observed_of model.bucket_x; "b" := model.observed_of model.role_x ]}
    "a" "b" (model.desired_of model.bucket_x) (model.desired_of model.role_x)
    (model.observed_of model.bucket_x) (model.observed_of model.role_x) _ _
    {[ "a" := model.desired_of model.bucket_x; "b" := model.desired_of model.role_x ]}
    0%nat _ eq_refl eq_refl eq_refl eq_refl eq_refl eq_refl eq_refl _ eq_refl eq_refl)));
    discriminate.
Defined.

(** ** Frame: what the handler leaves alone *)

Section frame.
Context {J : JSON}.

Lemma range_cons name rest observedComposed (st : loop_state) :
  range_desiredComposed (name :: rest) observedComposed st =
  match st.1 !! name with
  | Some desired =>
      match loop_body observedComposed name desired st with
      | inl err => inl err
      | inr st' => range_desiredComposed rest observedComposed st'
      end
  | None => range_desiredComposed rest observedComposed st
  end.
Proof. reflexivity. Qed.

(** What one iteration does, case by case. *)
Lemma loop_body_cases observedComposed name desired (st : loop_state) :
  (loop_body observedComposed name desired st = inr st ∧
   ∀ observed, observedComposed !! name = Some observed →
               labelled desired observed = false) ∨
  (∃ observed, observedComposed !! name = Some observed ∧
               labelled desired observed = true ∧
     ((∃ cause,
         convertViaJSON composed.New
           (GenerateUsage (resource.ObservedComposed.Resource observed)) = inl cause ∧
         loop_body observedComposed name desired st =
           inl (Wrap cause "cannot convert usage to unstructured")) ∨
      (∃ usageComposed,
         convertViaJSON composed.New
           (GenerateUsage (resource.ObservedComposed.Resource observed)) = inr usageComposed ∧
         loop_body observedComposed name desired st =
           inr (<[usage_key observed := usage_entry usageComposed]> st.1, S st.2)))).
Proof.
  destruct st as [m c].
  destruct (observedComposed !! name) as [observed|] eqn:Ho.
  - destruct (labelled desired observed) eqn:Hl.
    + right. exists observed. split; [reflexivity|]. split; [exact Hl|].
      rewrite (loop_body_protect _ _ _ _ _ _ Ho Hl).
      destruct (convertViaJSON _ _) as [cause|usageComposed]; [left|right]; eauto.
    + left. split; [|congruence]. apply loop_body_skip. congruence.
  - left. split; [|congruence]. apply loop_body_skip. congruence.
Qed.

Lemma loop_keys_cons name rest observedComposed (st : loop_state) :
  loop_keys (name :: rest) observedComposed st =
  match st.1 !! name with
  | Some desired =>
      match loop_body observedComposed name desired st with
      | inl _ => []
      | inr st' =>
          match observedComposed !! name with
          | Some observed =>
              if labelled desired observed
              then usage_key observed :: loop_keys rest observedComposed st'
              else loop_keys rest observedComposed st'
          | None => loop_keys rest observedComposed st'
          end
      end
  | None => loop_keys rest observedComposed st
  end.
Proof. reflexivity. Qed.

(** The loop keeps every entry whose key it does not write. *)
Lemma range_frame order observedComposed :
  ∀ (st st' : loop_state),
    range_desiredComposed order observedComposed st = inr st' →
    ∀ k, k ∉ loop_keys order observedComposed st → st'.1 !! k = st.1 !! k.
Proof.
  induction order as [|name rest IH]; intros st st' Hrun k Hk.
  - injection Hrun as <-. reflexivity.
  - rewrite range_cons in Hrun. rewrite loop_keys_cons in Hk.
    destruct (st.1 !! name) as [desired|] eqn:Hd; [|eauto].
    destruct (loop_body_cases observedComposed name desired st)
      as [[Hb Hno]|(observed & Ho & Hl & [(cause & _ & Hb)|(u & _ & Hb)])];
      rewrite Hb in Hrun, Hk.
    + apply (IH _ _ Hrun).
      destruct (observedComposed !! name) as [observed|] eqn:Ho; [|exact Hk].
      rewrite (Hno observed eq_refl) in Hk. exact Hk.
    + discriminate.
    + rewrite Ho, Hl in Hk. apply not_elem_of_cons in Hk as [Hne Hk].
      rewrite (IH _ _ Hrun k Hk). cbn [fst]. apply lookup_insert_ne. congruence.
Qed.

(** A key that holds a usage record keeps holding one. *)
Lemma range_usage_stays order observedComposed :
  ∀ (st st' : loop_state) k,
    range_desiredComposed order observedComposed st = inr st' →
    (∃ u, st.1 !! k = Some (usage_entry u)) →
    ∃ u, st'.1 !! k = Some (usage_entry u).
Proof.
  induction order as [|name rest IH]; intros st st' k Hrun Hu.
  - injection Hrun as <-. exact Hu.
  - rewrite range_cons in Hrun.
    destruct (st.1 !! name) as [desired|] eqn:Hd; [|eauto].
    destruct (loop_body_cases observedComposed name desired st)
      as [[Hb Hno]|(observed & Ho & Hl & [(cause & _ & Hb)|(u & _ & Hb)])];
      rewrite Hb in Hrun.
    + eauto.
    + discriminate.
    + apply (IH _ _ k Hrun). cbn [fst].
      destruct (decide (usage_key observed = k)) as [->|Hne].
      * exists u. apply lookup_insert_eq.
      * rewrite lookup_insert_ne by exact Hne. exact Hu.
Qed.

(** Every key the loop writes holds a usage record when the loop ends. *)
Lemma range_written order observedComposed :
  ∀ (st st' : loop_state),
    range_desiredComposed order observedComposed st = inr st' →
    ∀ k, k ∈ loop_keys order observedComposed st →
         ∃ u, st'.1 !! k = Some (usage_entry u).
Proof.
  induction order as [|name rest IH]; intros st st' Hrun k Hk.
  - cbn in Hk. apply elem_of_nil in Hk as [].
  - rewrite range_cons in Hrun. rewrite loop_keys_cons in Hk.
    destruct (st.1 !! name) as [desired|] eqn:Hd; [|eauto].
    destruct (loop_body_cases observedComposed name desired st)
      as [[Hb Hno]|(observed & Ho & Hl & [(cause & _ & Hb)|(u & _ & Hb)])];
      rewrite Hb in Hrun, Hk.
    + apply (IH _ _ Hrun).
      destruct (observedComposed !! name) as [observed|] eqn:Ho; [|exact Hk].
      rewrite (Hno observed eq_refl) in Hk. exact Hk.
    + discriminate.
    + rewrite Ho, Hl in Hk. apply elem_of_cons in Hk as [->|Hk]; [|eauto].
      apply (range_usage_stays _ _ _ _ _ Hrun). exists u. cbn [fst].
      apply lookup_insert_eq.
Qed.

(** C6. When the handler succeeds and none of the keys it synthesizes is
    the name of a member of the input desired set, every entry of the input
    desired set is in the output desired set, unchanged.  Whatever the
    input held under a synthesized key is replaced: in the output each
    synthesized key holds a usage record. *)
Theorem desired_preserved order observedComposite observedComposed desiredComposed out :
  desired_output order observedComposite observedComposed desiredComposed = inr out →
  ((∀ k, k ∈ synthesized_keys order observedComposite observedComposed desiredComposed →
         desiredComposed !! k = None) →
   ∀ name desired, desiredComposed !! name = Some desired → out !! name = Some desired) ∧
  (∀ k, k ∈ synthesized_keys order observedComposite observedComposed desiredComposed →
        ∃ usageComposed, out !! k = Some (usage_entry usageComposed)).
Proof.
  unfold desired_output, synthesized_keys.
  destruct (range_desiredComposed order observedComposed (desiredComposed, 0%nat))
    as [err|[m c]] eqn:Hrun; [discriminate|].
  unfold protect_composite.
  destruct (ProtectXR (resource.Composite.Resource observedComposite) || (0 <? c)%nat).
  - destruct (convertViaJSON _ _) as [err|usageComposed]; [discriminate|].
    intros [= <-]. fold (xr_usage_key observedComposite). fold (usage_entry usageComposed).
    split.
    + intros Hfresh name desired Hd.
      assert (Hx : name ≠ xr_usage_key observedComposite).
      { intros ->. rewrite Hfresh in Hd; [discriminate|]. apply elem_of_app. right.
        apply list_elem_of_singleton. reflexivity. }
      rewrite lookup_insert_ne by congruence.
      rewrite (range_frame _ _ _ _ Hrun); [exact Hd|].
      intros Hin. rewrite Hfresh in Hd; [discriminate|]. apply elem_of_app. left. exact Hin.
    + intros k Hk. apply elem_of_app in Hk as [Hk|Hk].
      * destruct (decide (xr_usage_key observedComposite = k)) as [->|Hne].
        -- exists usageComposed. apply lookup_insert_eq.
        -- rewrite lookup_insert_ne by exact Hne. apply (range_written _ _ _ _ Hrun _ Hk).
      * apply list_elem_of_singleton in Hk as ->. exists usageComposed. apply lookup_insert_eq.
  - intros [= <-]. split.
    + intros Hfresh name desired Hd.
      rewrite (range_frame _ _ _ _ Hrun); [exact Hd|].
      intros Hin. rewrite Hfresh in Hd; [discriminate|]. apply elem_of_app. left. exact Hin.
    + intros k Hk. rewrite app_nil_r in Hk. apply (range_written _ _ _ _ Hrun _ Hk).
Qed.

End frame.

Lemma desired_preserved_witness :
  let observedComposed : gmap resource.Name resource.ObservedComposed.t :=
    {[ "m1" := model.observed_of model.inst1_unlabelled ]} in
  let desiredComposed : gmap resource.Name resource.DesiredComposed.t :=
    {[ "m1" := model.desired_of model.inst1 ]} in
  let out : gmap resource.Name resource.DesiredComposed.t :=
    {[ "db-1-xr-protection" := model.composite_entry model.db1;
       "inst-1-protection" := model.member_entry model.inst1_unlabelled;
       "m1" := model.desired_of model.inst1 ]} in
  desired_output (J := model.json) ["m1"] (model.composite_of model.db1)
    observedComposed desiredComposed = inr out ∧
  synthesized_keys (J := model.json) ["m1"] (model.composite_of model.db1)
    observedComposed desiredComposed = ["inst-1-protection"; "db-1-xr-protection"] ∧
  out !! "m1" = Some (model.desired_of model.inst1).
Proof.
  split; [reflexivity|]. split; [reflexivity|].
  refine (proj1 (desired_preserved (J := model.json) ["m1"] (model.composite_of model.db1)
                  {[ "m1" := model.observed_of model.inst1_unlabelled ]}
                  {[ "m1" := model.desired_of model.inst1 ]} _ eq_refl) _ "m1" _ eq_refl).
  intros k Hk.
  change (k ∈ ["inst-1-protection"; "db-1-xr-protection"]) in Hk.
  apply elem_of_cons in Hk as [->|Hk]; [reflexivity|].
  apply list_elem_of_singleton in Hk as ->. reflexivity.
Defined.

(** ** Failures *)

Section failures.
Context {J : JSON} {K : SDK}.

(** The loop fails only with a wrapped conversion error. *)
Lemma range_error order observedComposed :
  ∀ (st : loop_state) err,
    range_desiredComposed order observedComposed st = inl err →
    ∃ usage cause,
      convertViaJSON composed.New usage = inl cause ∧
      err = Wrap cause "cannot convert usage to unstructured".
Proof.
  induction order as [|name rest IH]; intros st err Hrun; [discriminate|].
  rewrite range_cons in Hrun.
  destruct (st.1 !! name) as [desired|] eqn:Hd; [|eauto].
  destruct (loop_body_cases observedComposed name desired st)
    as [[Hb Hno]|(observed & Ho & Hl & [(cause & Hc & Hb)|(u & _ & Hb)])];
    rewrite Hb in Hrun; [eauto| |eauto].
  injection Hrun as <-. eauto.
Qed.

Lemma desired_output_error order observedComposite observedComposed desiredComposed err :
  desired_output order observedComposite observedComposed desiredComposed = inl err →
  ∃ usage cause,
    convertViaJSON composed.New usage = inl cause ∧
    err = Wrap cause "cannot convert usage to unstructured".
Proof.
  unfold desired_output.
  destruct (range_desiredComposed order observedComposed (desiredComposed, 0%nat))
    as [e|[m c]] eqn:Hrun.
  - intros [= <-]. apply (range_error _ _ _ _ Hrun).
  - unfold protect_composite.
    destruct (ProtectXR _ || _); [|discriminate].
    destruct (convertViaJSON _ _) as [cause|u] eqn:Hc; [|discriminate].
    intros [= <-]. eauto.
Qed.


(** When nothing fails, the response carries the desired state that
    [SetDesiredComposedResources] installed and the success condition. *)
Lemma RunFunction_succeeds order (req : RunFunctionRequest)
  observedComposite observedComposed desiredComposed out d :
  GetObservedCompositeResource req = inr observedComposite →
  GetObservedComposedResources req = inr observedComposed →
  GetDesiredComposedResources req = inr desiredComposed →
  desired_output order observedComposite observedComposed desiredComposed = inr out →
  SetDesiredComposedResources (GetDesired req) out = (d, None) →
  RunFunction order req =
  {| response.Desired := d;
     response.Results := [];
     response.Conditions :=
       [ {| response.Type_ := "FunctionSuccess";
            response.Status_ := response.STATUS_CONDITION_TRUE;
            response.Reason := "Success";
            response.ConditionTarget := response.TARGET_COMPOSITE_AND_CLAIM |} ] |}.
Proof.
  intros Hxr Hobs Hdes Hout Hset. unfold RunFunction.
  rewrite Hxr, Hobs, Hdes, Hout. cbn [response.To response.Desired].
  rewrite Hset. reflexivity.
Qed.

End failures.

(** ** The order of the range *)

Lemma append_cons (a : ascii) (s t : string) : String a s ++ t = String a (s ++ t).
Proof. reflexivity. Qed.

Lemma length_append (s t : string) :
  String.length (s ++ t) = (String.length s + String.length t)%nat.
Proof.
  induction s as [|a s IH]; [reflexivity|].
  rewrite append_cons. simpl. rewrite IH. reflexivity.
Qed.

Lemma append_inj_l (s1 s2 t : string) : s1 ++ t = s2 ++ t → s1 = s2.
Proof.
  revert s2. induction s1 as [|a s1 IH]; intros [|b s2] Heq.
  - reflexivity.
  - apply (f_equal String.length) in Heq. rewrite append_cons in Heq.
    change ("" ++ t) with t in Heq. simpl in Heq. rewrite length_append in Heq. lia.
  - apply (f_equal String.length) in Heq. rewrite append_cons in Heq.
    change ("" ++ t) with t in Heq. simpl in Heq. rewrite length_append in Heq. lia.
  - rewrite !append_cons in Heq. injection Heq as -> Heq. f_equal. apply IH, Heq.
Qed.

Section orders.
Context {J : JSON}.
Variable desiredComposed : gmap resource.Name resource.DesiredComposed.t.
Variable observedComposed : gmap resource.Name resource.ObservedComposed.t.
Hypothesis Hfresh : ∀ name observed,
  protected desiredComposed observedComposed name observed →
  desiredComposed !! usage_key observed = None ∧
  observedComposed !! usage_key observed = None.
Hypothesis Hnames : ∀ n1 n2 o1 o2,
  protected desiredComposed observedComposed n1 o1 →
  protected desiredComposed observedComposed n2 o2 →
  n1 ≠ n2 →
  unstructured.GetName (resource.ObservedComposed.Resource o1) ≠
  unstructured.GetName (resource.ObservedComposed.Resource o2).

Local Abbreviation step := (member_step desiredComposed observedComposed).
Local Abbreviation fails := (member_fails desiredComposed observedComposed).
Local Abbreviation kept := (input_kept desiredComposed observedComposed).

Lemma step_outside st name : desiredComposed !! name = None → step st name = st.
Proof. intros Hd. unfold member_step. rewrite Hd. reflexivity. Qed.

Lemma fails_inside name : fails name = true → is_Some (desiredComposed !! name).
Proof.
  unfold member_fails. destruct (desiredComposed !! name); [eauto|discriminate].
Qed.

Lemma step_comm st n1 n2 : step (step st n1) n2 = step (step st n2) n1.
Proof.
  destruct (decide (n1 = n2)) as [->|Hne]; [reflexivity|].
  unfold member_step.
  destruct (desiredComposed !! n1) as [d1|] eqn:Hd1; [|reflexivity].
  destruct (observedComposed !! n1) as [o1|] eqn:Ho1; [|reflexivity].
  destruct (labelled d1 o1) eqn:Hl1; [|reflexivity].
  destruct (convertViaJSON composed.New
              (GenerateUsage (resource.ObservedComposed.Resource o1))) as [e1|u1]; [reflexivity|].
  destruct (desiredComposed !! n2) as [d2|] eqn:Hd2; [|reflexivity].
  destruct (observedComposed !! n2) as [o2|] eqn:Ho2; [|reflexivity].
  destruct (labelled d2 o2) eqn:Hl2; [|reflexivity].
  destruct (convertViaJSON composed.New
              (GenerateUsage (resource.ObservedComposed.Resource o2))) as [e2|u2]; [reflexivity|].
  cbn [fst snd]. f_equal. apply insert_insert_ne.
  intros Hk. unfold usage_key in Hk. apply append_inj_l in Hk. revert Hk.
  apply (Hnames n2 n1); [exists d2|exists d1|]; auto.
Qed.

Lemma foldl_step_perm l1 l2 : l1 ≡ₚ l2 → ∀ st, foldl step st l1 = foldl step st l2.
Proof.
  induction 1 as [|x l1 l2 _ IH|x y l|l1 l2 l3 _ IH1 _ IH2]; intros st; simpl.
  - reflexivity.
  - apply IH.
  - rewrite step_comm. reflexivity.
  - rewrite IH1. apply IH2.
Qed.

Lemma foldl_step_inside order :
  ∀ st, foldl step st order =
        foldl step st (filter (λ name, is_Some (desiredComposed !! name)) order).
Proof.
  induction order as [|name rest IH]; intros st; [reflexivity|].
  rewrite filter_cons. destruct (decide (is_Some (desiredComposed !! name))) as [Hin|Hout].
  - simpl. apply IH.
  - simpl. rewrite step_outside; [apply IH|].
    destruct (desiredComposed !! name) eqn:Hd; [|reflexivity]. exfalso. apply Hout. eauto.
Qed.

Lemma range_static order :
  ∀ st, kept st →
    match range_desiredComposed order observedComposed st with
    | inr st' => Forall (λ name, fails name = false) order ∧ st' = foldl step st order
    | inl _ => Exists (λ name, fails name = true) order
    end.
Proof.
  induction order as [|name rest IH]; intros st [Hin Hout].
  - simpl. split; [constructor|reflexivity].
  - rewrite range_cons.
    assert (Hskip : step st name = st → fails name = false →
      match range_desiredComposed rest observedComposed st with
      | inr st' => Forall (λ name, fails name = false) (name :: rest) ∧
                   st' = foldl step st (name :: rest)
      | inl _ => Exists (λ name, fails name = true) (name :: rest)
      end).
    { intros Hs Hf. specialize (IH st (conj Hin Hout)).
      destruct (range_desiredComposed rest observedComposed st) as [e|st'].
      - right. exact IH.
      - destruct IH as [Hall ->]. split; [constructor; assumption|].
        simpl. rewrite Hs. reflexivity. }
    destruct (st.1 !! name) as [desired|] eqn:Hd.
    + destruct (desiredComposed !! name) as [d|] eqn:Hdes.
      * assert (desired = d) as -> by (rewrite (Hin _ _ Hdes) in Hd; congruence).
        destruct (loop_body_cases observedComposed name d st)
          as [[Hb Hno]|(observed & Ho & Hl & [(cause & Hc & Hb)|(u & Hc & Hb)])];
          rewrite Hb.
        -- apply Hskip; unfold member_step, member_fails; rewrite Hdes;
             destruct (observedComposed !! name) as [observed|]; try reflexivity;
             rewrite (Hno observed eq_refl); reflexivity.
        -- left. unfold member_fails. rewrite Hdes, Ho, Hl, Hc. reflexivity.
        -- assert (Hp : protected desiredComposed observedComposed name observed)
             by (exists d; auto).
           destruct (Hfresh _ _ Hp) as [Hk1 Hk2].
           assert (Hs : step st name =
                        (<[usage_key observed := usage_entry u]> st.1, S st.2))
             by (unfold member_step; rewrite Hdes, Ho, Hl, Hc; reflexivity).
           assert (Hf : fails name = false)
             by (unfold member_fails; rewrite Hdes, Ho, Hl, Hc; reflexivity).
           assert (Hkept : kept (<[usage_key observed := usage_entry u]> st.1, S st.2)).
           { split; cbn [fst].
             - intros k d' Hk. rewrite lookup_insert_ne by congruence. apply Hin, Hk.
             - intros k Hk. destruct (decide (usage_key observed = k)) as [<-|Hne]; [auto|].
               rewrite lookup_insert_ne by exact Hne. apply Hout, Hk. }
           specialize (IH _ Hkept).
           destruct (range_desiredComposed rest observedComposed _) as [e|st'].
           ++ right. exact IH.
           ++ destruct IH as [Hall ->]. split; [constructor; assumption|].
              simpl. rewrite Hs. reflexivity.
      * assert (Ho : observedComposed !! name = None) by (apply Hout; eauto).
        rewrite loop_body_skip by (intros observed; rewrite Ho; discriminate).
        apply Hskip; [apply step_outside, Hdes|].
        unfold member_fails. rewrite Hdes. reflexivity.
    + assert (Hdes : desiredComposed !! name = None).
      { destruct (desiredComposed !! name) as [d|] eqn:Hdes; [|reflexivity].
        rewrite (Hin _ _ Hdes) in Hd. discriminate. }
      apply Hskip; [apply step_outside, Hdes|].
      unfold member_fails. rewrite Hdes. reflexivity.
Qed.

Lemma range_order_perm order1 order2 :
  range_order desiredComposed order1 → range_order desiredComposed order2 →
  filter (λ name, is_Some (desiredComposed !! name)) order1 ≡ₚ
  filter (λ name, is_Some (desiredComposed !! name)) order2.
Proof.
  intros [Hnd1 Hall1] [Hnd2 Hall2].
  apply NoDup_Permutation; [apply NoDup_filter, Hnd1|apply NoDup_filter, Hnd2|].
  intros name. rewrite !list_elem_of_filter. split; intros [Hin _]; auto.
Qed.

Lemma range_any_order order1 order2 :
  range_order desiredComposed order1 → range_order desiredComposed order2 →
  match range_desiredComposed order1 observedComposed (desiredComposed, 0%nat),
        range_desiredComposed order2 observedComposed (desiredComposed, 0%nat) with
  | inr st1, inr st2 => st1 = st2
  | inl _, inl _ => True
  | _, _ => False
  end.
Proof.
  intros Hv1 Hv2.
  assert (Hkept : kept (desiredComposed, 0%nat)).
  { split; cbn [fst]; [auto|]. intros k -> [? ?]. discriminate. }
  pose proof (range_static order1 _ Hkept) as H1.
  pose proof (range_static order2 _ Hkept) as H2.
  assert (Hex : ∀ o o', range_order desiredComposed o' →
    Exists (λ name, fails name = true) o → Forall (λ name, fails name = false) o' → False).
  { intros o o' [_ Hall] Hex Hfa. apply Exists_exists in Hex as (name & _ & Hf).
    rewrite Forall_forall in Hfa. specialize (Hfa name (Hall _ (fails_inside _ Hf))).
    congruence. }
  destruct (range_desiredComposed order1 observedComposed _) as [e1|st1],
           (range_desiredComposed order2 observedComposed _) as [e2|st2].
  - exact I.
  - destruct H2 as [H2 _]. exact (Hex _ _ Hv2 H1 H2).
  - destruct H1 as [H1 _]. exact (Hex _ _ Hv1 H2 H1).
  - destruct H1 as [_ ->], H2 as [_ ->].
    rewrite (foldl_step_inside order1), (foldl_step_inside order2).
    apply foldl_step_perm, range_order_perm; assumption.
Qed.

End orders.

Section any_order.
Context {J : JSON}.

(** C7, as the code has it.  For given inputs the handler's output is
    determined by the order in which the range over the desired map
    produces its keys.  When no protected member's usage key is a name of
    the desired or of the observed set, and distinct protected members have
    observed copies with distinct names, every two orders that Go allows
    give the same outcome: both runs fail in a conversion, or both succeed
    with the same output desired set. *)
Theorem desired_output_any_order
  order1 order2 observedComposite observedComposed desiredComposed :
  (∀ name observed,
     protected desiredComposed observedComposed name observed →
     desiredComposed !! usage_key observed = None ∧
     observedComposed !! usage_key observed = None) →
  (∀ n1 n2 o1 o2,
     protected desiredComposed observedComposed n1 o1 →
     protected desiredComposed observedComposed n2 o2 →
     n1 ≠ n2 →
     unstructured.GetName (resource.ObservedComposed.Resource o1) ≠
     unstructured.GetName (resource.ObservedComposed.Resource o2)) →
  range_order desiredComposed order1 →
  range_order desiredComposed order2 →
  match desired_output order1 observedComposite observedComposed desiredComposed,
        desired_output order2 observedComposite observedComposed desiredComposed with
  | inr out1, inr out2 => out1 = out2
  | inl _, inl _ => True
  | _, _ => False
  end.
Proof.
  intros Hfresh Hnames Hv1 Hv2.
  pose proof (range_any_order desiredComposed observedComposed Hfresh Hnames
                order1 order2 Hv1 Hv2) as Hrun.
  unfold desired_output.
  destruct (range_desiredComposed order1 observedComposed (desiredComposed, 0%nat))
    as [e1|st1],
    (range_desiredComposed order2 observedComposed (desiredComposed, 0%nat))
    as [e2|st2]; try contradiction; [exact I|].
  subst st2. destruct (protect_composite observedComposite st1); [exact I|reflexivity].
Qed.

End any_order.

(** ** The label [protection.fn.crossplane.io/enabled] *)

Lemma labels_distinct : ProtectionLabelBlockDeletion ≠ ProtectionLabelEnabled.
Proof. discriminate. Qed.

Lemma same_but_enabled_refl u : same_but_enabled u u.
Proof. left. reflexivity. Qed.

Lemma same_but_enabled_nested u1 u2 fields :
  same_but_enabled u1 u2 →
  fields = ["metadata"; "name"] ∨ fields = ["metadata"; "namespace"] ∨
  fields = ["apiVersion"] ∨ fields = ["kind"] →
  unstructured.getNestedString u1 fields = unstructured.getNestedString u2 fields.
Proof.
  intros [Heq|(object & metadata & labels1 & labels2 & Hu1 & Hu2 & _)] Hf;
    [rewrite Heq; reflexivity|].
  unfold unstructured.getNestedString.
  rewrite (root_object _ _ Hu1), (root_object _ _ Hu2).
  destruct Hf as [-> | [-> | [-> | ->]]]; rewrite !NestedFieldNoCopy_map;
    rewrite ?lookup_insert_eq, ?lookup_insert_ne by discriminate;
    rewrite ?NestedFieldNoCopy_map, ?lookup_insert_ne by discriminate; reflexivity.
Qed.

Lemma same_but_enabled_MatchLabel (c1 c2 : composed.Unstructured) :
  same_but_enabled c1 c2 →
  MatchLabel c1 ProtectionLabelBlockDeletion = MatchLabel c2 ProtectionLabelBlockDeletion.
Proof.
  intros [Heq|(object & metadata & labels1 & labels2 & Hu1 & Hu2 & Hagree & _)].
  - unfold MatchLabel. rewrite Heq. reflexivity.
  - unfold MatchLabel, fieldpath.GetValueInto_map. rewrite Hu1, Hu2.
    rewrite !GetValue_map, !lookup_insert_eq.
    rewrite !GetValue_map, !lookup_insert_eq. cbn [fieldpath.GetValue].
    rewrite (Hagree _ labels_distinct). reflexivity.
Qed.

Lemma all_strings_agree (labels1 labels2 : gmap string value) :
  (∀ k, k ≠ ProtectionLabelEnabled → labels1 !! k = labels2 !! k) →
  string_or_absent (labels2 !! ProtectionLabelEnabled) →
  map_Forall (λ _ v, is_Some (as_string v)) labels1 →
  map_Forall (λ _ v, is_Some (as_string v)) labels2.
Proof.
  intros Hagree Hen Hall k v Hk.
  destruct (decide (k = ProtectionLabelEnabled)) as [->|Hne].
  - rewrite Hk in Hen. destruct v; simpl in Hen; try contradiction. eauto.
  - rewrite <- (Hagree _ Hne) in Hk. apply (Hall _ _ Hk).
Qed.

Lemma same_but_enabled_ProtectXR (c1 c2 : composite.Unstructured) :
  same_but_enabled c1 c2 → ProtectXR c1 = ProtectXR c2.
Proof.
  intros [Heq|(object & metadata & labels1 & labels2 & Hu1 & Hu2 & Hagree & He1 & He2)].
  - unfold ProtectXR, unstructured.GetLabels. rewrite Heq. reflexivity.
  - unfold ProtectXR, unstructured.GetLabels.
    rewrite (root_object _ _ Hu1), (root_object _ _ Hu2).
    rewrite !NestedFieldNoCopy_map, !lookup_insert_eq.
    rewrite !NestedFieldNoCopy_map, !lookup_insert_eq.
    cbn [unstructured.NestedFieldNoCopy].
    rewrite !string_map_lookup, (Hagree _ labels_distinct).
    destruct (decide (map_Forall (λ _ v, is_Some (as_string v)) labels1)) as [H1|H1],
             (decide (map_Forall (λ _ v, is_Some (as_string v)) labels2)) as [H2|H2];
      try reflexivity; exfalso.
    + apply H2. apply (all_strings_agree labels1); auto.
    + apply H1. apply (all_strings_agree labels2); auto.
      intros k Hk. symmetry. auto.
Qed.

Lemma same_but_enabled_GenerateUsage (c1 c2 : composed.Unstructured) :
  same_but_enabled c1 c2 → GenerateUsage c1 = GenerateUsage c2.
Proof.
  intros Hs. unfold GenerateUsage, unstructured.GetNamespace, unstructured.GetName,
    unstructured.GetAPIVersion, unstructured.GetKind.
  rewrite !(same_but_enabled_nested _ _ _ Hs) by auto. reflexivity.
Qed.

Lemma same_but_enabled_GenerateXRUsage (c1 c2 : composite.Unstructured) :
  same_but_enabled c1 c2 → GenerateXRUsage c1 = GenerateXRUsage c2.
Proof.
  intros Hs. unfold GenerateXRUsage, unstructured.GetNamespace, unstructured.GetName,
    unstructured.GetAPIVersion, unstructured.GetKind.
  rewrite !(same_but_enabled_nested _ _ _ Hs) by auto. reflexivity.
Qed.

Section enabled.
Context {J : JSON}.
Variables desired1 desired2 : gmap resource.Name resource.DesiredComposed.t.
Variables observed1 observed2 : gmap resource.Name resource.ObservedComposed.t.
Hypothesis Hdesired : ∀ k,
  option_Forall2 same_desired_but_enabled (desired1 !! k) (desired2 !! k).
Hypothesis Hobserved : ∀ k,
  option_Forall2 same_observed_but_enabled (observed1 !! k) (observed2 !! k).

Local Abbreviation agree := (agree_or_input desired1 desired2).

Lemma agree_or_input_lookup m1 m2 k :
  agree m1 m2 →
  option_Forall2 same_desired_but_enabled (m1 !! k) (m2 !! k).
Proof.
  intros Hm. destruct (Hm k) as [Heq|[-> ->]]; [|apply Hdesired].
  rewrite Heq. destruct (m2 !! k); constructor.
  split; [apply same_but_enabled_refl|reflexivity].
Qed.

Lemma labelled_same d1 d2 o1 o2 :
  same_desired_but_enabled d1 d2 → same_observed_but_enabled o1 o2 →
  labelled d1 o1 = labelled d2 o2.
Proof.
  intros [Hd _] [Ho _]. unfold labelled, ProtectResource.
  rewrite (same_but_enabled_MatchLabel _ _ Hd), (same_but_enabled_MatchLabel _ _ Ho).
  reflexivity.
Qed.

Lemma usage_key_same o1 o2 : same_observed_but_enabled o1 o2 → usage_key o1 = usage_key o2.
Proof.
  intros [Ho _]. unfold usage_key, unstructured.GetName.
  rewrite (same_but_enabled_nested _ _ _ Ho) by auto. reflexivity.
Qed.

Lemma range_enabled order :
  ∀ m1 m2 c,
    agree m1 m2 →
    loop_keys order observed1 (m1, c) = loop_keys order observed2 (m2, c) ∧
    match range_desiredComposed order observed1 (m1, c),
          range_desiredComposed order observed2 (m2, c) with
    | inl e1, inl e2 => e1 = e2
    | inr (m1', c1), inr (m2', c2) => c1 = c2 ∧ agree m1' m2'
    | _, _ => False
    end.
Proof.
  induction order as [|name rest IH]; intros m1 m2 c Hm.
  - simpl. auto.
  - rewrite !range_cons, !loop_keys_cons. cbn [fst].
    pose proof (agree_or_input_lookup _ _ name Hm) as Hd.
    destruct (m1 !! name) as [d1|], (m2 !! name) as [d2|];
      inversion Hd as [? ? Hd12|]; subst; [|apply IH, Hm].
    pose proof (Hobserved name) as Ho.
    destruct (observed1 !! name) as [o1|] eqn:Ho1, (observed2 !! name) as [o2|] eqn:Ho2;
      inversion Ho as [? ? Ho12|]; subst.
    + pose proof (labelled_same _ _ _ _ Hd12 Ho12) as Hl.
      destruct (labelled d1 o1) eqn:Hl1; symmetry in Hl.
      * rewrite (loop_body_protect _ _ _ _ _ _ Ho1 Hl1), (loop_body_protect _ _ _ _ _ _ Ho2 Hl).
        destruct Ho12 as [Hres Hcd].
        rewrite <- (same_but_enabled_GenerateUsage _ _ Hres).
        rewrite <- (usage_key_same o1 o2 (conj Hres Hcd)).
        destruct (convertViaJSON composed.New
                    (GenerateUsage (resource.ObservedComposed.Resource o1))) as [e|u].
        -- auto.
        -- destruct (IH (<[usage_key o1 := usage_entry u]> m1)
                        (<[usage_key o1 := usage_entry u]> m2) (S c)) as [Hk Hr].
           { intros k. destruct (decide (usage_key o1 = k)) as [<-|Hne].
             - left. rewrite !lookup_insert_eq. reflexivity.
             - rewrite !lookup_insert_ne by exact Hne. apply Hm. }
           rewrite Hl. split; [f_equal; exact Hk|exact Hr].
      * rewrite !loop_body_skip by (intros o; rewrite ?Ho1, ?Ho2; congruence).
        rewrite Hl. apply IH, Hm.
    + rewrite !loop_body_skip by (intros o; rewrite ?Ho1, ?Ho2; congruence).
      apply IH, Hm.
Qed.

End enabled.

Section enabled_output.
Context {J : JSON}.

End enabled_output.

(** ** The properties at work on concrete requests *)

Lemma MatchLabel_spec_witness :
  MatchLabel {| composed.embedded := model.bucket_x |} ProtectionLabelBlockDeletion = true.
Proof.
  apply (proj1 (MatchLabel_spec (J := model.json))).
  eexists _, _, _, "True". repeat split; reflexivity.
Defined.


Lemma range_order_pair (a b : resource.Name) (da db : resource.DesiredComposed.t) order :
  NoDup order → a ∈ order → b ∈ order →
  range_order {[ a := da; b := db ]} order.
Proof.
  intros Hnd Ha Hb. split; [exact Hnd|]. intros name [d Hd].
  apply lookup_insert_Some in Hd as [[<- _]|[_ Hd]]; [exact Ha|].
  apply lookup_singleton_Some in Hd as [<- _]. exact Hb.
Qed.

Lemma range_order_single (a : resource.Name) (da : resource.DesiredComposed.t) order :
  NoDup order → a ∈ order → range_order {[ a := da ]} order.
Proof.
  intros Hnd Ha. split; [exact Hnd|]. intros name [d Hd].
  apply lookup_singleton_Some in Hd as [<- _]. exact Ha.
Qed.

(** The kind a usage record stored under [key] refers to. *)
Lemma kind_referred_to
  (key : resource.Name)
  (r1 r2 : error + gmap resource.Name resource.DesiredComposed.t) :
  let kind (r : error + gmap resource.Name resource.DesiredComposed.t) :=
    match r with
    | inr out =>
        entry ← out !! key;
        object ← unstructured.Object (resource.DesiredComposed.Resource entry);
        match fieldpath.GetValue (VMap object) ["spec"; "of"; "kind"] with
        | inr v => Some v
        | inl _ => None
        end
    | inl _ => None
    end in
  kind r1 ≠ kind r2 → r1 ≠ r2.
Proof. intros kind Hne ->. apply Hne. reflexivity. Qed.

(** Two members whose observed copies share their name: the two orders of
    the range leave different records under the one key. *)
Lemma desired_output_order_matters :
  let observedComposed : gmap resource.Name resource.ObservedComposed.t :=
    {[ "a" := model.observed_of model.bucket_x; "b" := model.observed_of model.role_x ]} in
  let desiredComposed : gmap resource.Name resource.DesiredComposed.t :=
    {[ "a" := model.desired_of model.bucket_x; "b" := model.desired_of model.role_x ]} in
  range_order desiredComposed ["a"; "b"] ∧
  range_order desiredComposed ["b"; "a"] ∧
  desired_output (J := model.json) ["a"; "b"] (model.composite_of model.db1)
    observedComposed desiredComposed ≠
  desired_output (J := model.json) ["b"; "a"] (model.composite_of model.db1)
    observedComposed desiredComposed.
Proof.
  split; [|split].
  - apply range_order_pair; [apply (bool_decide_unpack _); reflexivity| |];
      apply (bool_decide_unpack _); reflexivity.
  - apply range_order_pair; [apply (bool_decide_unpack _); reflexivity| |];
      apply (bool_decide_unpack _); reflexivity.
  - apply (kind_referred_to "x-protection"). vm_compute. discriminate.
Qed.

Lemma protected_pair (a b : resource.Name)
  (da db : resource.DesiredComposed.t) (oa ob : resource.ObservedComposed.t) name observed :
  a ≠ b →
  protected {[ a := da; b := db ]} {[ a := oa; b := ob ]} name observed →
  (name = a ∧ observed = oa) ∨ (name = b ∧ observed = ob).
Proof.
  intros Hab (desired & Hd & Ho & _).
  apply lookup_insert_Some in Hd as [[<- _]|[Hne Hd]].
  - rewrite lookup_insert_eq in Ho. left. split; congruence.
  - apply lookup_singleton_Some in Hd as [<- _].
    rewrite lookup_insert_ne, lookup_singleton_eq in Ho by exact Hab.
    right. split; congruence.
Qed.

(** Two protected members with different observed names, ranged over in
    the two possible orders. *)
Lemma desired_output_any_order_witness :
  let observedComposed : gmap resource.Name resource.ObservedComposed.t :=
    {[ "a" := model.observed_of model.inst1; "b" := model.observed_of model.role_x ]} in
  let desiredComposed : gmap resource.Name resource.DesiredComposed.t :=
    {[ "a" := model.desired_of model.inst1; "b" := model.desired_of model.role_x ]} in
  range_order desiredComposed ["a"; "b"] ∧
  range_order desiredComposed ["b"; "a"] ∧
  protected desiredComposed observedComposed "a" (model.observed_of model.inst1) ∧
  protected desiredComposed observedComposed "b" (model.observed_of model.role_x) ∧
  is_inr (desired_output (J := model.json) ["a"; "b"] (model.composite_of model.db1)
            observedComposed desiredComposed) = true ∧
  match desired_output (J := model.json) ["a"; "b"] (model.composite_of model.db1)
          observedComposed desiredComposed,
        desired_output (J := model.json) ["b"; "a"] (model.composite_of model.db1)
          observedComposed desiredComposed with
  | inr out1, inr out2 => out1 = out2
  | inl _, inl _ => True
  | _, _ => False
  end.
Proof.
  assert (H1 : range_order
                 ({[ "a" := model.desired_of model.inst1; "b" := model.desired_of model.role_x ]}
                   : gmap resource.Name resource.DesiredComposed.t) ["a"; "b"]).
  { apply range_order_pair; apply (bool_decide_unpack _); reflexivity. }
  assert (H2 : range_order
                 ({[ "a" := model.desired_of model.inst1; "b" := model.desired_of model.role_x ]}
                   : gmap resource.Name resource.DesiredComposed.t) ["b"; "a"]).
  { apply range_order_pair; apply (bool_decide_unpack _); reflexivity. }
  split; [exact H1|]. split; [exact H2|].
  split; [exists (model.desired_of model.inst1); repeat split; reflexivity|].
  split; [exists (model.desired_of model.role_x); repeat split; reflexivity|].
  split; [reflexivity|].
  assert (Hab : ("a" : resource.Name) ≠ "b") by discriminate.
  refine (desired_output_any_order (J := model.json) ["a"; "b"] ["b"; "a"]
            (model.composite_of model.db1)
            {[ "a" := model.observed_of model.inst1; "b" := model.observed_of model.role_x ]}
            {[ "a" := model.desired_of model.inst1; "b" := model.desired_of model.role_x ]}
            _ _ H1 H2).
  - intros name observed Hp.
    destruct (protected_pair _ _ _ _ _ _ _ _ Hab Hp) as [[-> ->]|[-> ->]];
      split; reflexivity.
  - intros n1 n2 o1 o2 Hp1 Hp2 Hne.
    destruct (protected_pair _ _ _ _ _ _ _ _ Hab Hp1) as [[-> ->]|[-> ->]],
             (protected_pair _ _ _ _ _ _ _ _ Hab Hp2) as [[-> ->]|[-> ->]];
      try congruence; discriminate.
Defined.

Lemma inst1_enabled_same : same_but_enabled model.inst1_enabled model.inst1.
Proof.
  right.
  exists {[ "apiVersion" := VString "example.org/v1"; "kind" := VString "Instance" ]},
         {[ "name" := VString "inst-1"; "namespace" := VString "ns1" ]},
         {[ ProtectionLabelBlockDeletion := VString "true";
            ProtectionLabelEnabled := VString "true" ]},
         {[ ProtectionLabelBlockDeletion := VString "true" ]}.
  split; [reflexivity|]. split; [reflexivity|]. split; [|split; exact I].
  intros k Hk.
  destruct (decide (ProtectionLabelBlockDeletion = k)) as [<-|Hne]; [reflexivity|].
  rewrite lookup_insert_ne by exact Hne.
  rewrite !lookup_singleton_ne by congruence. reflexivity.
Qed.



(** The scenario of the specification, end to end: the labelled member
    [m1], observed under the name [inst-1] in [ns1], gets a [Usage] and the
    cluster-scoped composite [db-1] a [ClusterUsage]. *)
Example scenario_protected :
  RunFunction (J := model.json) (K := model.sdk) ["m1"]
    (model.request_of model.db1
       {[ "m1" := model.observed_of model.inst1_unlabelled ]}
       {[ "m1" := model.desired_of model.inst1 ]}) =
  @response.Build_RunFunctionResponse model.sdk
    (Some {[ "m1" := model.desired_of model.inst1;
             "inst-1-protection" := model.member_entry model.inst1_unlabelled;
             "db-1-xr-protection" := model.composite_entry model.db1 ]})
    []
    [ {| response.Type_ := "FunctionSuccess";
         response.Status_ := response.STATUS_CONDITION_TRUE;
         response.Reason := "Success";
         response.ConditionTarget := response.TARGET_COMPOSITE_AND_CLAIM |} ] ∧
  GenerateUsage {| composed.embedded := model.inst1_unlabelled |} !! "kind" =
    Some (VString "Usage") ∧
  GenerateXRUsage {| composite.embedded := model.db1 |} !! "kind" =
    Some (VString "ClusterUsage").
Proof. repeat split; reflexivity. Qed.

(** The same request without an observed [m1]: no usage record at all. *)
Example scenario_unobserved :
  RunFunction (J := model.json) (K := model.sdk) ["m1"]
    (model.request_of model.db1 ∅ {[ "m1" := model.desired_of model.inst1 ]}) =
  @response.Build_RunFunctionResponse model.sdk
    (Some {[ "m1" := model.desired_of model.inst1 ]})
    []
    [ {| response.Type_ := "FunctionSuccess";
         response.Status_ := response.STATUS_CONDITION_TRUE;
         response.Reason := "Success";
         response.ConditionTarget := response.TARGET_COMPOSITE_AND_CLAIM |} ].
Proof. reflexivity. Qed.

(** A synthesized key that is the name of a member of the input: the
    member's entry is replaced by the usage record. *)
Example scenario_collision :
  desired_output (J := model.json) ["m1"; "inst-1-protection"]
    (model.composite_of model.db1)
    {[ "m1" := model.observed_of model.inst1 ]}
    {[ "m1" := model.desired_of model.inst1;
       "inst-1-protection" := model.desired_of model.bucket_x ]} =
  inr {[ "m1" := model.desired_of model.inst1;
         "inst-1-protection" := model.member_entry model.inst1;
         "db-1-xr-protection" := model.composite_entry model.db1 ]}.
Proof. reflexivity. Qed.

(** * Further properties of the handler *)

(** ** What the generators return, read back as an object *)

(** X6. The document either generator returns, read back through the
    accessors of an unstructured object: its name is the protected name
    followed by [-function-protection], its kind and apiVersion are the
    generated ones, and it has no namespace, also when the protected
    resource is namespaced and the kind is [Usage]. *)
Theorem generated_usage_read_back (u : unstructured.Unstructured) :
  let member : unstructured.Unstructured :=
    {| unstructured.Object := Some (GenerateUsage {| composed.embedded := u |}) |} in
  let primary : unstructured.Unstructured :=
    {| unstructured.Object := Some (GenerateXRUsage {| composite.embedded := u |}) |} in
  let kind := if decide (unstructured.GetNamespace u = "") then "ClusterUsage" else "Usage" in
  (unstructured.GetName member = unstructured.GetName u ++ "-function-protection" ∧
   unstructured.GetNamespace member = "" ∧
   unstructured.GetKind member = kind ∧
   unstructured.GetAPIVersion member = ProtectionGroupVersion) ∧
  (unstructured.GetName primary = unstructured.GetName u ++ "-function-protection" ∧
   unstructured.GetNamespace primary = "" ∧
   unstructured.GetKind primary = kind ∧
   unstructured.GetAPIVersion primary = ProtectionGroupVersion).
Proof.
  cbv zeta. unfold GenerateUsage, GenerateXRUsage. cbn [composed.embedded composite.embedded].
  destruct (decide (unstructured.GetNamespace u = "")) as [Hns|Hns];
    repeat split; reflexivity.
Qed.

(** X7. A generated usage carries no labels: whatever the label asked
    for, the member check and the composite check answer false on it. *)
Theorem generated_usage_unlabelled (u : unstructured.Unstructured) (label : string) :
  let member : unstructured.Unstructured :=
    {| unstructured.Object := Some (GenerateUsage {| composed.embedded := u |}) |} in
  let primary : unstructured.Unstructured :=
    {| unstructured.Object := Some (GenerateXRUsage {| composite.embedded := u |}) |} in
  MatchLabel {| composed.embedded := member |} label = false ∧
  MatchLabel {| composed.embedded := primary |} label = false ∧
  ProtectXR {| composite.embedded := member |} = false ∧
  ProtectXR {| composite.embedded := primary |} = false ∧
  unstructured.GetLabels member = ∅ ∧
  unstructured.GetLabels primary = ∅.
Proof.
  cbv zeta. unfold GenerateUsage, GenerateXRUsage. cbn [composed.embedded composite.embedded].
  destruct (decide (unstructured.GetNamespace u = "")) as [Hns|Hns];
    repeat split; reflexivity.
Qed.

(** X8. The composite's check is the member's check made stricter: it
    answers true only where [MatchLabel] does, and where [MatchLabel]
    answers true it does so exactly when every label of the object is a
    string. *)
Theorem ProtectXR_stricter (u : unstructured.Unstructured) :
  (ProtectXR {| composite.embedded := u |} = true →
   MatchLabel {| composed.embedded := u |} ProtectionLabelBlockDeletion = true) ∧
  (MatchLabel {| composed.embedded := u |} ProtectionLabelBlockDeletion = true →
   (ProtectXR {| composite.embedded := u |} = true ↔
    ∀ object metadata labels,
      unstructured.Object u = Some object →
      object !! "metadata" = Some (VMap metadata) →
      metadata !! "labels" = Some (VMap labels) →
      map_Forall (λ _ v, is_Some (as_string v)) labels)).
Proof.
  split.
  - intros Hx. apply ProtectXR_true in Hx
      as (object & metadata & labels & val & Ho & Hm & Hl & _ & Hval & Hf).
    apply MatchLabel_true. exists object, metadata, labels, val. auto.
  - intros Hm. apply MatchLabel_true in Hm
      as (object & metadata & labels & val & Ho & Hm & Hl & Hval & Hf).
    cbn [composed.embedded] in Ho. split.
    + intros Hx. apply ProtectXR_true in Hx
        as (object' & metadata' & labels' & val' & Ho' & Hm' & Hl' & Hall & _).
      cbn [composite.embedded] in Ho'.
      intros object'' metadata'' labels'' Ho'' Hm'' Hl''.
      assert (object'' = object') as -> by congruence.
      assert (metadata'' = metadata') as -> by congruence.
      assert (labels'' = labels') as -> by congruence. exact Hall.
    + intros Hall. apply ProtectXR_true. exists object, metadata, labels, val.
      repeat split; eauto.
Qed.

(** A composite whose labels hold a number besides the label: the member's
    check would answer true, the composite's answers false. *)
Example ProtectXR_mixed_labels :
  let u := model.object "example.org/v1" "XDatabase" "db-1" ""
             {[ ProtectionLabelBlockDeletion := VString "true"; "tier" := VNum 1 ]} in
  MatchLabel {| composed.embedded := u |} ProtectionLabelBlockDeletion = true ∧
  ProtectXR {| composite.embedded := u |} = false.
Proof. split; reflexivity. Qed.

(** X9. An observed object without [metadata] is tolerated: its name and
    namespace read as empty, so its usage is a [ClusterUsage] named
    [-function-protection] that refers to the empty name, and the loop
    stores it under the key [-protection]. *)
Theorem usage_without_metadata (observed : resource.ObservedComposed.t) :
  (unstructured.Object (resource.ObservedComposed.Resource observed) = None ∨
   ∃ object, unstructured.Object (resource.ObservedComposed.Resource observed) = Some object ∧
             object !! "metadata" = None) →
  let usage := GenerateUsage (resource.ObservedComposed.Resource observed) in
  usage_key observed = "-protection" ∧
  usage !! "kind" = Some (VString "ClusterUsage") ∧
  usage !! "metadata" = Some (VMap {[ "name" := VString "-function-protection" ]}) ∧
  fieldpath.GetValue (VMap usage) ["spec"; "of"; "resourceRef"] =
    inr (VMap {[ "name" := VString "" ]}).
Proof.
  intros Hu.
  assert (Hget : ∀ field,
    unstructured.getNestedString (resource.ObservedComposed.Resource observed)
      ["metadata"; field] = "").
  { intros field. unfold unstructured.getNestedString, unstructured.root.
    destruct Hu as [->|(object & -> & Hm)]; [reflexivity|].
    cbn [default from_option id]. rewrite NestedFieldNoCopy_map, Hm. reflexivity. }
  assert (Hname : unstructured.GetName (resource.ObservedComposed.Resource observed) = "")
    by apply Hget.
  assert (Hns : unstructured.GetNamespace (resource.ObservedComposed.Resource observed) = "")
    by apply Hget.
  cbv zeta. unfold usage_key, GenerateUsage. rewrite Hname, Hns.
  repeat split; reflexivity.
Qed.

Lemma append_assoc (s t v : string) : (s ++ t) ++ v = s ++ (t ++ v).
Proof.
  induction s as [|a s IH]; [reflexivity|].
  rewrite !append_cons, IH. reflexivity.
Qed.

(** X12. Which usage keys coincide.  Two members get the same key exactly
    when their observed copies have the same name, whatever their kinds and
    namespaces; a member gets the composite's key exactly when its observed
    name is the composite's name followed by [-xr]. *)
Theorem usage_keys_coincide
  (o1 o2 : resource.ObservedComposed.t) (observedComposite : resource.Composite.t) :
  (usage_key o1 = usage_key o2 ↔
   unstructured.GetName (resource.ObservedComposed.Resource o1) =
   unstructured.GetName (resource.ObservedComposed.Resource o2)) ∧
  (usage_key o1 = xr_usage_key observedComposite ↔
   unstructured.GetName (resource.ObservedComposed.Resource o1) =
   unstructured.GetName (resource.Composite.Resource observedComposite) ++ "-xr").
Proof.
  unfold usage_key, xr_usage_key. split; split.
  - apply append_inj_l.
  - intros ->. reflexivity.
  - intros Hk. apply (append_inj_l _ _ "-protection").
    rewrite Hk, append_assoc. reflexivity.
  - intros ->. rewrite append_assoc. reflexivity.
Qed.

Section further.
Context {J : JSON}.

Lemma range_count order observedComposed :
  ∀ (st st' : loop_state),
    range_desiredComposed order observedComposed st = inr st' →
    st'.2 = (st.2 + length (loop_keys order observedComposed st))%nat ∧
    dom st'.1 = dom st.1 ∪ list_to_set (loop_keys order observedComposed st).
Proof.
  induction order as [|name rest IH]; intros st st' Hrun.
  - injection Hrun as <-. cbn. split; [lia|]. rewrite union_empty_r_L. reflexivity.
  - rewrite range_cons in Hrun. rewrite loop_keys_cons.
    destruct (st.1 !! name) as [desired|] eqn:Hd; [|eauto].
    destruct (loop_body_cases observedComposed name desired st)
      as [[Hb Hno]|(observed & Ho & Hl & [(cause & _ & Hb)|(u & _ & Hb)])];
      rewrite Hb in Hrun |- *.
    + destruct (observedComposed !! name) as [observed|] eqn:Ho; [|eauto].
      rewrite (Hno observed eq_refl). eauto.
    + discriminate.
    + rewrite Ho, Hl. destruct (IH _ _ Hrun) as [Hc Hdom]. cbn [fst snd] in Hc, Hdom.
      split; [rewrite Hc; cbn [length]; lia|].
      rewrite Hdom, dom_insert_L. cbn [list_to_set].
      apply set_eq. intros x. rewrite !elem_of_union. tauto.
Qed.

Lemma range_unlabelled order observedComposed :
  ∀ st : loop_state,
    (∀ k d o, st.1 !! k = Some d → observedComposed !! k = Some o →
              labelled d o = false) →
    range_desiredComposed order observedComposed st = inr st.
Proof.
  induction order as [|name rest IH]; intros st Hno; [reflexivity|].
  rewrite range_cons. destruct (st.1 !! name) as [desired|] eqn:Hd; [|auto].
  rewrite loop_body_skip by eauto. auto.
Qed.

Lemma range_total order observedComposed :
  (∀ u, is_inr (convertViaJSON composed.New (GenerateUsage u)) = true) →
  ∀ st : loop_state, is_inr (range_desiredComposed order observedComposed st) = true.
Proof.
  intros Hconv. induction order as [|name rest IH]; intros st; [reflexivity|].
  rewrite range_cons. destruct (st.1 !! name) as [desired|] eqn:Hd; [|auto].
  destruct (loop_body_cases observedComposed name desired st)
      as [[Hb Hno]|(observed & Ho & Hl & [(cause & Hc & Hb)|(u & _ & Hb)])];
      rewrite Hb; auto.
  specialize (Hconv (resource.ObservedComposed.Resource observed)).
  rewrite Hc in Hconv. discriminate.
Qed.

Lemma loop_keys_length order observedComposed :
  ∀ st : loop_state, (length (loop_keys order observedComposed st) ≤ length order)%nat.
Proof.
  induction order as [|name rest IH]; intros st; [reflexivity|].
  rewrite loop_keys_cons. cbn [length].
  destruct (st.1 !! name) as [desired|]; [|specialize (IH st); lia].
  destruct (loop_body observedComposed name desired st) as [e|st']; [cbn; lia|].
  destruct (observedComposed !! name) as [observed|]; [|specialize (IH st'); lia].
  destruct (labelled desired observed); cbn [length]; specialize (IH st'); lia.
Qed.

(** X2. When the loop ends, the protected count has grown by the number
    of usage records the loop has written, one per protected iteration and
    at most one per key the range produced; two writes to one key count
    twice. *)
Theorem protected_count_written order observedComposed (st st' : loop_state) :
  range_desiredComposed order observedComposed st = inr st' →
  st'.2 = (st.2 + length (loop_keys order observedComposed st))%nat ∧
  (st'.2 ≤ st.2 + length order)%nat ∧
  (size (dom st'.1) ≤ size (dom st.1) + (st'.2 - st.2))%nat.
Proof.
  intros Hrun. destruct (range_count _ _ _ _ Hrun) as [Hc Hdom].
  pose proof (loop_keys_length order observedComposed st) as Hlen.
  split; [exact Hc|]. split; [lia|].
  rewrite Hdom, Hc, size_union_alt.
  assert (Hsize : ∀ l : list resource.Name,
            (size (list_to_set (C := gset resource.Name) l) ≤ length l)%nat).
  { induction l as [|x l IHl]; cbn [list_to_set length].
    - rewrite size_empty. lia.
    - rewrite size_union_alt, size_singleton.
      assert (size (list_to_set (C := gset resource.Name) l ∖ {[x]})
              ≤ size (list_to_set (C := gset resource.Name) l))%nat
        by (apply subseteq_size, subseteq_difference_l; reflexivity).
      lia. }
  assert (size (list_to_set (C := gset resource.Name)
                  (loop_keys order observedComposed st) ∖ dom st.1)
          ≤ size (list_to_set (C := gset resource.Name)
                    (loop_keys order observedComposed st)))%nat
    by (apply subseteq_size, subseteq_difference_l; reflexivity).
  specialize (Hsize (loop_keys order observedComposed st)). lia.
Qed.

(** X3. The handler only adds and overwrites: the names of the output
    desired set are those of the input and the keys synthesized in the run,
    and under every other key the output holds what the input held,
    whatever happens under the synthesized ones. *)
Theorem output_frame order observedComposite observedComposed desiredComposed out :
  desired_output order observedComposite observedComposed desiredComposed = inr out →
  dom out =
    dom desiredComposed ∪
    list_to_set (synthesized_keys order observedComposite observedComposed desiredComposed) ∧
  ∀ k, k ∉ synthesized_keys order observedComposite observedComposed desiredComposed →
       out !! k = desiredComposed !! k.
Proof.
  unfold desired_output, synthesized_keys.
  destruct (range_desiredComposed order observedComposed (desiredComposed, 0%nat))
    as [err|[m c]] eqn:Hrun; [discriminate|].
  destruct (range_count _ _ _ _ Hrun) as [_ Hdom]. cbn [fst] in Hdom.
  unfold protect_composite.
  destruct (ProtectXR (resource.Composite.Resource observedComposite) || (0 <? c)%nat).
  - destruct (convertViaJSON _ _) as [err|usageComposed]; [discriminate|].
    intros [= <-]. fold (xr_usage_key observedComposite). split.
    + rewrite dom_insert_L, Hdom, list_to_set_app_L. cbn [list_to_set].
      apply set_eq. intros x. rewrite !elem_of_union, elem_of_empty. tauto.
    + intros k Hk. apply not_elem_of_app in Hk as [Hk Hx].
      rewrite lookup_insert_ne.
      * apply (range_frame _ _ _ _ Hrun _ Hk).
      * intros <-. apply Hx, list_elem_of_singleton. reflexivity.
  - intros [= <-]. rewrite app_nil_r. split; [exact Hdom|].
    intros k Hk. apply (range_frame _ _ _ _ Hrun _ Hk).
Qed.

(** X4. When no member that is in both sets has the label on either copy
    and the composite does not have it, the handler returns the desired set
    as it came, in every order, and attempts no conversion: a codec that
    fails cannot make it fail. *)
Theorem unlabelled_unchanged order observedComposite observedComposed desiredComposed :
  (∀ name desired observed,
     desiredComposed !! name = Some desired →
     observedComposed !! name = Some observed →
     MatchLabel (resource.DesiredComposed.Resource desired)
       ProtectionLabelBlockDeletion = false ∧
     MatchLabel (resource.ObservedComposed.Resource observed)
       ProtectionLabelBlockDeletion = false) →
  ProtectXR (resource.Composite.Resource observedComposite) = false →
  desired_output order observedComposite observedComposed desiredComposed =
    inr desiredComposed ∧
  synthesized_keys order observedComposite observedComposed desiredComposed = [].
Proof.
  intros Hno Hxr.
  assert (Hrun : range_desiredComposed order observedComposed (desiredComposed, 0%nat) =
                 inr (desiredComposed, 0%nat)).
  { apply range_unlabelled. cbn [fst]. intros k d o Hd Ho.
    destruct (Hno _ _ _ Hd Ho) as [H1 H2]. unfold labelled, ProtectResource.
    rewrite H1, H2. reflexivity. }
  pose proof (range_count _ _ _ _ Hrun) as [Hc _]. cbn [snd] in Hc.
  unfold desired_output, synthesized_keys. rewrite Hrun.
  unfold protect_composite. rewrite Hxr. cbn [orb Nat.ltb Nat.leb].
  split; [reflexivity|].
  destruct (loop_keys order observedComposed (desiredComposed, 0%nat)); [reflexivity|].
  cbn [length] in Hc. lia.
Qed.

(** X5. A successful run has one of two shapes: nothing was synthesized
    and the output is the input, or the output holds the composite's usage
    record under the composite's key.  No run protects a member without
    protecting the composite. *)
Theorem nothing_or_composite order observedComposite observedComposed desiredComposed out :
  desired_output order observedComposite observedComposed desiredComposed = inr out →
  (synthesized_keys order observedComposite observedComposed desiredComposed = [] ∧
   out = desiredComposed) ∨
  (xr_usage_key observedComposite ∈
     synthesized_keys order observedComposite observedComposed desiredComposed ∧
   ∃ usageComposed,
     convertViaJSON composed.New
       (GenerateXRUsage (resource.Composite.Resource observedComposite)) = inr usageComposed ∧
     out !! xr_usage_key observedComposite = Some (usage_entry usageComposed)).
Proof.
  unfold desired_output, synthesized_keys.
  destruct (range_desiredComposed order observedComposed (desiredComposed, 0%nat))
    as [err|[m c]] eqn:Hrun; [discriminate|].
  destruct (range_count _ _ _ _ Hrun) as [Hc _]. cbn [snd] in Hc.
  unfold protect_composite.
  destruct (ProtectXR (resource.Composite.Resource observedComposite) || (0 <? c)%nat)
    eqn:Hb.
  - destruct (convertViaJSON _ _) as [err|usageComposed] eqn:Hconv; [discriminate|].
    intros [= <-]. right. split.
    + apply elem_of_app. right. apply list_elem_of_singleton. reflexivity.
    + exists usageComposed. split; [reflexivity|]. apply lookup_insert_eq.
  - intros [= <-]. left. apply orb_false_iff in Hb as [_ Hb].
    apply Nat.ltb_ge in Hb.
    assert (Hnil : loop_keys order observedComposed (desiredComposed, 0%nat) = []).
    { destruct (loop_keys order observedComposed (desiredComposed, 0%nat));
        [reflexivity|]. cbn [length] in Hc. lia. }
    rewrite Hnil. split; [reflexivity|].
    apply map_eq. intros k.
    apply (range_frame _ _ _ _ Hrun k). rewrite Hnil. apply not_elem_of_nil.
Qed.

(** X10. The handler's computation fails only through a conversion: with a
    codec that converts every generated usage, it yields a desired set for
    every order and every input. *)
Theorem conversions_suffice order observedComposite observedComposed desiredComposed :
  (∀ u, is_inr (convertViaJSON composed.New (GenerateUsage u)) = true) →
  (∀ u, is_inr (convertViaJSON composed.New (GenerateXRUsage u)) = true) →
  is_inr (desired_output order observedComposite observedComposed desiredComposed) = true.
Proof.
  intros Hm Hx. unfold desired_output.
  pose proof (range_total order observedComposed Hm (desiredComposed, 0%nat)) as Hrun.
  destruct (range_desiredComposed order observedComposed (desiredComposed, 0%nat))
    as [err|[m c]]; [discriminate|].
  unfold protect_composite. destruct (ProtectXR _ || _); [|reflexivity].
  specialize (Hx (resource.Composite.Resource observedComposite)).
  destruct (convertViaJSON _ _); [discriminate|reflexivity].
Qed.

(** X11. A failed conversion ends the loop at once: when the loop fails
    on the keys produced so far, whatever keys the range would have
    produced next, with whatever labels, do not change the error. *)
Theorem range_fails_fast order rest observedComposed (st : loop_state) err :
  range_desiredComposed order observedComposed st = inl err →
  range_desiredComposed (order ++ rest) observedComposed st = inl err ∧
  loop_keys (order ++ rest) observedComposed st = loop_keys order observedComposed st.
Proof.
  revert st. induction order as [|name tail IH]; intros st Hrun; [discriminate|].
  rewrite <- app_comm_cons, !range_cons, !loop_keys_cons. rewrite range_cons in Hrun.
  destruct (st.1 !! name) as [desired|] eqn:Hd; [|auto].
  destruct (loop_body observedComposed name desired st) as [e|st1]; [auto|].
  destruct (IH _ Hrun) as [H1 H2]. rewrite H1, H2. auto.
Qed.

End further.

Section outcome.
Context {J : JSON} {K : SDK}.

(** X1. Every response has one of two shapes.  Either it carries one
    fatal result and no condition; or it carries no result and the one
    condition [FunctionSuccess], and then all three retrievals succeeded,
    the handler computed a desired set, and the response's desired state is
    the one [SetDesiredComposedResources] returned for that set without an
    error.  A response never reports both a failure and the success. *)
Theorem RunFunction_outcome order (req : RunFunctionRequest) :
  let rsp := RunFunction order req in
  (∃ err,
     response.Results rsp =
       [ {| response.Severity_ := response.SEVERITY_FATAL;
            response.Message := err;
            response.ResultTarget := response.TARGET_COMPOSITE |} ] ∧
     response.Conditions rsp = []) ∨
  (response.Results rsp = [] ∧
   response.Conditions rsp =
     [ {| response.Type_ := "FunctionSuccess";
          response.Status_ := response.STATUS_CONDITION_TRUE;
          response.Reason := "Success";
          response.ConditionTarget := response.TARGET_COMPOSITE_AND_CLAIM |} ] ∧
   ∃ observedComposite observedComposed desiredComposed out,
     GetObservedCompositeResource req = inr observedComposite ∧
     GetObservedComposedResources req = inr observedComposed ∧
     GetDesiredComposedResources req = inr desiredComposed ∧
     desired_output order observedComposite observedComposed desiredComposed = inr out ∧
     SetDesiredComposedResources (GetDesired req) out = (response.Desired rsp, None)).
Proof.
  cbv zeta. unfold RunFunction.
  destruct (GetObservedCompositeResource req) as [e|xr] eqn:Hxr; [left; eauto|].
  destruct (GetObservedComposedResources req) as [e|obs] eqn:Hobs; [left; eauto|].
  destruct (GetDesiredComposedResources req) as [e|des] eqn:Hdes; [left; eauto|].
  destruct (desired_output order xr obs des) as [e|out] eqn:Hout; [left; eauto|].
  cbn [response.To response.Desired].
  destruct (SetDesiredComposedResources (GetDesired req) out) as [d [e|]] eqn:Hset.
  - left. eauto.
  - right. split; [reflexivity|]. split; [reflexivity|].
    exists xr, obs, des, out. auto.
Qed.

End outcome.

(** ** The further properties on concrete requests *)

Lemma protected_count_written_witness :
  let observedComposed : gmap resource.Name resource.ObservedComposed.t :=
    {[ "a" := model.observed_of model.bucket_x; "b" := model.observed_of model.role_x ]} in
  let m : gmap resource.Name resource.DesiredComposed.t :=
    {[ "a" := model.desired_of model.bucket_x; "b" := model.desired_of model.role_x ]} in
  let st' : loop_state := (<["x-protection" := model.member_entry model.role_x]> m, 2%nat) in
  range_desiredComposed (J := model.json) ["a"; "b"] observedComposed (m, 0%nat) = inr st' ∧
  loop_keys (J := model.json) ["a"; "b"] observedComposed (m, 0%nat) =
    ["x-protection"; "x-protection"] ∧
  (st'.2 = (0 + length (loop_keys (J := model.json) ["a"; "b"] observedComposed (m, 0%nat)))%nat ∧
   (st'.2 ≤ 0 + length ["a"; "b"])%nat ∧
   (size (dom st'.1) ≤ size (dom m) + (st'.2 - 0))%nat).
Proof.
  cbv zeta. split; [reflexivity|]. split; [reflexivity|].
  exact (protected_count_written (J := model.json) ["a"; "b"]
           {[ "a" := model.observed_of model.bucket_x; "b" := model.observed_of model.role_x ]}
           ({[ "a" := model.desired_of model.bucket_x; "b" := model.desired_of model.role_x ]},
            0%nat)
           (<["x-protection" := model.member_entry model.role_x]>
              {[ "a" := model.desired_of model.bucket_x;
                 "b" := model.desired_of model.role_x ]}, 2%nat)
           eq_refl).
Defined.

Lemma output_frame_witness :
  let observedComposed : gmap resource.Name resource.ObservedComposed.t :=
    {[ "m1" := model.observed_of model.inst1 ]} in
  let desiredComposed : gmap resource.Name resource.DesiredComposed.t :=
    {[ "m1" := model.desired_of model.inst1;
       "inst-1-protection" := model.desired_of model.bucket_x ]} in
  let out : gmap resource.Name resource.DesiredComposed.t :=
    {[ "m1" := model.desired_of model.inst1;
       "inst-1-protection" := model.member_entry model.inst1;
       "db-1-xr-protection" := model.composite_entry model.db1 ]} in
  desired_output (J := model.json) ["m1"; "inst-1-protection"]
    (model.composite_of model.db1) observedComposed desiredComposed = inr out ∧
  out !! "m1" = desiredComposed !! "m1".
Proof.
  cbv zeta. split; [reflexivity|].
  refine (proj2 (output_frame (J := model.json) ["m1"; "inst-1-protection"]
                   (model.composite_of model.db1)
                   {[ "m1" := model.observed_of model.inst1 ]}
                   {[ "m1" := model.desired_of model.inst1;
                      "inst-1-protection" := model.desired_of model.bucket_x ]}
                   _ eq_refl) "m1" _).
  change ("m1" ∉ ["inst-1-protection"; "db-1-xr-protection"]).
  apply (bool_decide_unpack _). reflexivity.
Defined.

Lemma unlabelled_unchanged_witness :
  let desiredComposed : gmap resource.Name resource.DesiredComposed.t :=
    {[ "m1" := model.desired_of model.inst1 ]} in
  ProtectXR (resource.Composite.Resource (model.composite_of model.db1)) = false ∧
  desired_output (J := model.failing_json "inst-1-function-protection") ["m1"]
    (model.composite_of model.db1) ∅ desiredComposed = inr desiredComposed.
Proof.
  cbv zeta. split; [reflexivity|].
  refine (proj1 (unlabelled_unchanged (J := model.failing_json "inst-1-function-protection")
                   ["m1"] (model.composite_of model.db1) ∅
                   {[ "m1" := model.desired_of model.inst1 ]} _ eq_refl)).
  intros name desired observed _ Ho. rewrite lookup_empty in Ho. discriminate.
Defined.

Lemma nothing_or_composite_witness :
  let observedComposed : gmap resource.Name resource.ObservedComposed.t :=
    {[ "m1" := model.observed_of model.inst1_unlabelled ]} in
  let desiredComposed : gmap resource.Name resource.DesiredComposed.t :=
    {[ "m1" := model.desired_of model.inst1 ]} in
  let out : gmap resource.Name resource.DesiredComposed.t :=
    {[ "db-1-xr-protection" := model.composite_entry model.db1;
       "inst-1-protection" := model.member_entry model.inst1_unlabelled;
       "m1" := model.desired_of model.inst1 ]} in
  let observedComposite := model.composite_of model.db1 in
  desired_output (J := model.json) ["m1"] observedComposite
    observedComposed desiredComposed = inr out ∧
  ProtectXR (resource.Composite.Resource observedComposite) = false ∧
  ((synthesized_keys (J := model.json) ["m1"] observedComposite
      observedComposed desiredComposed = [] ∧
    out = desiredComposed) ∨
   (xr_usage_key observedComposite ∈
      synthesized_keys (J := model.json) ["m1"] observedComposite
        observedComposed desiredComposed ∧
    ∃ usageComposed,
      convertViaJSON (J := model.json) composed.New
        (GenerateXRUsage (resource.Composite.Resource observedComposite)) =
        inr usageComposed ∧
      out !! xr_usage_key observedComposite = Some (usage_entry usageComposed))).
Proof.
  cbv zeta. split; [reflexivity|]. split; [reflexivity|].
  exact (nothing_or_composite (J := model.json) ["m1"] (model.composite_of model.db1)
           {[ "m1" := model.observed_of model.inst1_unlabelled ]}
           {[ "m1" := model.desired_of model.inst1 ]}
           {[ "db-1-xr-protection" := model.composite_entry model.db1;
              "inst-1-protection" := model.member_entry model.inst1_unlabelled;
              "m1" := model.desired_of model.inst1 ]}
           eq_refl).
Defined.

Lemma usage_without_metadata_witness :
  let observed := model.observed_of {| unstructured.Object := None |} in
  usage_key observed = "-protection" ∧
  GenerateUsage (resource.ObservedComposed.Resource observed) !! "kind" =
    Some (VString "ClusterUsage").
Proof.
  cbv zeta.
  pose proof (usage_without_metadata
                (model.observed_of {| unstructured.Object := None |})
                (or_introl eq_refl)) as (Hk & Hkind & _).
  split; [exact Hk|exact Hkind].
Defined.

Lemma conversions_suffice_witness :
  is_inr (desired_output (J := model.json) ["a"; "b"] (model.composite_of model.db1)
            {[ "a" := model.observed_of model.bucket_x; "b" := model.observed_of model.role_x ]}
            {[ "a" := model.desired_of model.bucket_x; "b" := model.desired_of model.role_x ]})
  = true.
Proof.
  exact (conversions_suffice (J := model.json) ["a"; "b"] (model.composite_of model.db1)
           {[ "a" := model.observed_of model.bucket_x; "b" := model.observed_of model.role_x ]}
           {[ "a" := model.desired_of model.bucket_x; "b" := model.desired_of model.role_x ]}
           (λ _, eq_refl) (λ _, eq_refl)).
Defined.

Lemma range_fails_fast_witness :
  let observedComposed : gmap resource.Name resource.ObservedComposed.t :=
    {[ "a" := model.observed_of model.inst1; "b" := model.observed_of model.role_x;
       "c" := model.observed_of model.bucket_x ]} in
  let m : gmap resource.Name resource.DesiredComposed.t :=
    {[ "a" := model.desired_of model.inst1; "b" := model.desired_of model.role_x;
       "c" := model.desired_of model.bucket_x ]} in
  let err := "cannot convert usage to unstructured: json: unsupported value" in
  range_desiredComposed (J := model.failing_json "x-function-protection") ["a"; "b"]
    observedComposed (m, 0%nat) = inl err ∧
  range_desiredComposed (J := model.failing_json "x-function-protection") (["a"; "b"] ++ ["c"])
    observedComposed (m, 0%nat) = inl err.
Proof.
  cbv zeta. split; [reflexivity|].
  exact (proj1 (range_fails_fast (J := model.failing_json "x-function-protection")
                  ["a"; "b"] ["c"]
                  {[ "a" := model.observed_of model.inst1;
                     "b" := model.observed_of model.role_x;
                     "c" := model.observed_of model.bucket_x ]}
                  ({[ "a" := model.desired_of model.inst1;
                      "b" := model.desired_of model.role_x;
                      "c" := model.desired_of model.bucket_x ]}, 0%nat)
                  _ eq_refl)).
Defined.

(** ** The members' records in a whole invocation *)

Section member_records.
Context {J : JSON}.
Variable desiredComposed : gmap resource.Name resource.DesiredComposed.t.
Variable observedComposed : gmap resource.Name resource.ObservedComposed.t.
Hypothesis Hnames : ∀ n1 n2 o1 o2,
  protected desiredComposed observedComposed n1 o1 →
  protected desiredComposed observedComposed n2 o2 →
  n1 ≠ n2 →
  unstructured.GetName (resource.ObservedComposed.Resource o1) ≠
  unstructured.GetName (resource.ObservedComposed.Resource o2).

Local Abbreviation step := (member_step desiredComposed observedComposed).
Local Abbreviation fails := (member_fails desiredComposed observedComposed).

(** What a step writes, if anything. *)
Lemma step_cases (st : loop_state) name :
  step st name = st ∨
  ∃ observed usageComposed,
    protected desiredComposed observedComposed name observed ∧
    convertViaJSON composed.New
      (GenerateUsage (resource.ObservedComposed.Resource observed)) = inr usageComposed ∧
    step st name = (<[usage_key observed := usage_entry usageComposed]> st.1, S st.2).
Proof.
  unfold member_step.
  destruct (desiredComposed !! name) as [d|] eqn:Hd; [|auto].
  destruct (observedComposed !! name) as [o|] eqn:Ho; [|auto].
  destruct (labelled d o) eqn:Hl; [|auto].
  destruct (convertViaJSON composed.New
              (GenerateUsage (resource.ObservedComposed.Resource o))) as [e|u] eqn:Hc; [auto|].
  right. exists o, u. split; [exists d; auto|]. auto.
Qed.

Lemma protected_converts name observed :
  protected desiredComposed observedComposed name observed →
  fails name = false →
  ∃ usageComposed,
    convertViaJSON composed.New
      (GenerateUsage (resource.ObservedComposed.Resource observed)) = inr usageComposed.
Proof.
  intros (d & Hd & Ho & Hl). unfold member_fails. rewrite Hd, Ho, Hl.
  destruct (convertViaJSON _ _) as [e|u]; [discriminate|eauto].
Qed.

Lemma protected_observed name o1 o2 :
  protected desiredComposed observedComposed name o1 →
  protected desiredComposed observedComposed name o2 → o1 = o2.
Proof. intros (_ & _ & H1 & _) (_ & _ & H2 & _). congruence. Qed.

(** Every key is written by a protected member or keeps its entry. *)
Lemma foldl_step_only order :
  ∀ (st : loop_state) k,
    (∃ name observed,
       name ∈ order ∧ protected desiredComposed observedComposed name observed ∧
       k = usage_key observed) ∨
    (foldl step st order).1 !! k = st.1 !! k.
Proof.
  induction order as [|name rest IH]; intros st k; [right; reflexivity|].
  cbn [foldl].
  destruct (IH (step st name) k) as [(n & o & Hin & Hp & ->)|Heq].
  { left. exists n, o. split; [right; exact Hin|]. auto. }
  destruct (step_cases st name) as [Hs|(o & u & Hp & _ & Hs)].
  - right. rewrite Heq, Hs. reflexivity.
  - destruct (decide (usage_key o = k)) as [<-|Hne].
    + left. exists name, o. split; [left|]. auto.
    + right. rewrite Heq, Hs. cbn [fst]. apply lookup_insert_ne, Hne.
Qed.

(** The record of a protected member stays under its key. *)
Lemma foldl_step_keeps order :
  ∀ (st : loop_state) name observed usageComposed,
    protected desiredComposed observedComposed name observed →
    convertViaJSON composed.New
      (GenerateUsage (resource.ObservedComposed.Resource observed)) = inr usageComposed →
    st.1 !! usage_key observed = Some (usage_entry usageComposed) →
    (foldl step st order).1 !! usage_key observed = Some (usage_entry usageComposed).
Proof.
  induction order as [|n rest IH]; intros st name o u Hp Hc Hst; [exact Hst|].
  cbn [foldl]. apply (IH _ name o u Hp Hc).
  destruct (step_cases st n) as [Hs|(o' & u' & Hp' & Hc' & Hs)]; rewrite Hs; [exact Hst|].
  cbn [fst]. destruct (decide (usage_key o' = usage_key o)) as [Hk|Hne].
  - destruct (decide (n = name)) as [->|Hn].
    + rewrite (protected_observed _ _ _ Hp' Hp) in Hc' |- *.
      rewrite Hc in Hc'. injection Hc' as <-. apply lookup_insert_eq.
    + exfalso. apply (Hnames _ _ _ _ Hp' Hp Hn).
      unfold usage_key in Hk. apply append_inj_l in Hk. exact Hk.
  - rewrite lookup_insert_ne by exact Hne. exact Hst.
Qed.

(** A protected member the range produces has its record under its key. *)
Lemma foldl_step_writes order :
  ∀ (st : loop_state) name observed usageComposed,
    name ∈ order →
    protected desiredComposed observedComposed name observed →
    convertViaJSON composed.New
      (GenerateUsage (resource.ObservedComposed.Resource observed)) = inr usageComposed →
    (foldl step st order).1 !! usage_key observed = Some (usage_entry usageComposed).
Proof.
  induction order as [|n rest IH]; intros st name o u Hin Hp Hc.
  - apply elem_of_nil in Hin as [].
  - cbn [foldl]. apply elem_of_cons in Hin as [<-|Hin]; [|eauto].
    apply (foldl_step_keeps _ _ name o u Hp Hc).
    unfold member_step. destruct Hp as (d & Hd & Ho & Hl).
    rewrite Hd, Ho, Hl, Hc. cbn [fst]. apply lookup_insert_eq.
Qed.

End member_records.

Section invocation.
Context {J : JSON}.

(** C1, as the code has it.  In a successful invocation whose synthesized
    keys do not collide (no protected member's key is a name of the desired
    or of the observed set, distinct protected members have observed copies
    with distinct names, and no protected member's key is the composite's),
    and for every order Go allows, the output desired set holds for every
    member that is in both the desired and the observed set with the
    block-deletion label true on either copy the usage record generated
    from its observed copy, which refers to the observed copy's apiVersion,
    kind, name and namespace, converted and stored under the observed name
    followed by [-protection].  No other member gets one: every key of the
    output is the composite's, the key of such a member, or holds what the
    input held. *)
Theorem member_usages order observedComposite observedComposed desiredComposed out :
  (∀ name observed,
     protected desiredComposed observedComposed name observed →
     desiredComposed !! usage_key observed = None ∧
     observedComposed !! usage_key observed = None) →
  (∀ n1 n2 o1 o2,
     protected desiredComposed observedComposed n1 o1 →
     protected desiredComposed observedComposed n2 o2 →
     n1 ≠ n2 →
     unstructured.GetName (resource.ObservedComposed.Resource o1) ≠
     unstructured.GetName (resource.ObservedComposed.Resource o2)) →
  (∀ name observed,
     protected desiredComposed observedComposed name observed →
     usage_key observed ≠ xr_usage_key observedComposite) →
  range_order desiredComposed order →
  desired_output order observedComposite observedComposed desiredComposed = inr out →
  (∀ name observed,
     protected desiredComposed observedComposed name observed →
     let usage := GenerateUsage (resource.ObservedComposed.Resource observed) in
     references (resource.ObservedComposed.Resource observed) usage ∧
     ∃ usageComposed,
       convertViaJSON composed.New usage = inr usageComposed ∧
       out !! (unstructured.GetName (resource.ObservedComposed.Resource observed)
                 ++ "-protection") =
       Some {| resource.DesiredComposed.Resource := usageComposed;
               resource.DesiredComposed.Ready := resource.ReadyUnspecified |}) ∧
  (∀ k,
     k = xr_usage_key observedComposite ∨
     (∃ name observed,
        protected desiredComposed observedComposed name observed ∧
        k = unstructured.GetName (resource.ObservedComposed.Resource observed)
              ++ "-protection") ∨
     out !! k = desiredComposed !! k).
Proof.
  intros Hfresh Hnames Hxr [_ Hall] Hout. unfold desired_output in Hout.
  assert (Hkept : input_kept desiredComposed observedComposed (desiredComposed, 0%nat)).
  { split; cbn [fst]; [auto|]. intros k -> [? ?]. discriminate. }
  pose proof (range_static desiredComposed observedComposed Hfresh order _ Hkept) as Hrun.
  destruct (range_desiredComposed order observedComposed (desiredComposed, 0%nat))
    as [e|st]; [discriminate|].
  destruct Hrun as [Hnofail ->].
  set (st := foldl (member_step desiredComposed observedComposed)
               (desiredComposed, 0%nat) order) in *.
  assert (Hlook : ∀ k, k ≠ xr_usage_key observedComposite → out !! k = st.1 !! k).
  { intros k Hk. unfold protect_composite in Hout. destruct st as [m c]. cbn [fst].
    destruct (ProtectXR _ || _); [|congruence].
    destruct (convertViaJSON _ _) as [e|u]; [discriminate|].
    injection Hout as <-. apply lookup_insert_ne. intros Heq. apply Hk. symmetry. exact Heq. }
  split.
  - intros name observed Hp. split; [apply GenerateUsage_references|].
    assert (Hin : name ∈ order).
    { apply Hall. destruct Hp as (d & Hd & _). eauto. }
    rewrite Forall_forall in Hnofail.
    destruct (protected_converts _ _ _ _ Hp (Hnofail _ Hin)) as [u Hu].
    exists u. split; [exact Hu|].
    change (out !! usage_key observed = Some (usage_entry u)).
    rewrite (Hlook _ (Hxr _ _ Hp)).
    apply (foldl_step_writes desiredComposed observedComposed Hnames order _ name observed u
             Hin Hp Hu).
  - intros k. destruct (decide (k = xr_usage_key observedComposite)) as [Hk|Hk]; [auto|].
    right. rewrite (Hlook _ Hk).
    destruct (foldl_step_only desiredComposed observedComposed order
                (desiredComposed, 0%nat) k) as [(n & o & _ & Hp & ->)|Heq].
    + left. exists n, o. auto.
    + right. exact Heq.
Qed.

End invocation.

(** The kind of the object an entry holds tells the records apart. *)
Lemma entry_kind_differs (e1 e2 : resource.DesiredComposed.t) :
  unstructured.GetKind (resource.DesiredComposed.Resource e1) ≠
  unstructured.GetKind (resource.DesiredComposed.Resource e2) →
  e1 ≠ e2.
Proof. intros Hne ->. apply Hne. reflexivity. Qed.

(** A labelled member [m1], present in both sets, whose observed name is
    the composite's followed by [-xr]: its key is the composite's, and the
    output holds the composite's record there and the member's nowhere. *)
Lemma member_record_replaced :
  let observedComposed : gmap resource.Name resource.ObservedComposed.t :=
    {[ "m1" := model.observed_of model.inst_xr ]} in
  let desiredComposed : gmap resource.Name resource.DesiredComposed.t :=
    {[ "m1" := model.desired_of model.inst_xr ]} in
  let out : gmap resource.Name resource.DesiredComposed.t :=
    {[ "m1" := model.desired_of model.inst_xr;
       "db-1-xr-protection" := model.composite_entry model.db1 ]} in
  range_order desiredComposed ["m1"] ∧
  protected desiredComposed observedComposed "m1" (model.observed_of model.inst_xr) ∧
  usage_key (model.observed_of model.inst_xr) = "db-1-xr-protection" ∧
  desired_output (J := model.json) ["m1"] (model.composite_of model.db1)
    observedComposed desiredComposed = inr out ∧
  ∀ k, out !! k ≠ Some (model.member_entry model.inst_xr).
Proof.
  cbv zeta. split; [|split; [|split; [|split]]].
  - apply range_order_single; apply (bool_decide_unpack _); reflexivity.
  - exists (model.desired_of model.inst_xr). repeat split; reflexivity.
  - reflexivity.
  - reflexivity.
  - intros k Hk.
    apply lookup_insert_Some in Hk as [[_ Hk]|[_ Hk]].
    + revert Hk. apply entry_kind_differs. vm_compute. discriminate.
    + apply lookup_singleton_Some in Hk as [_ Hk].
      revert Hk. apply entry_kind_differs. vm_compute. discriminate.
Qed.

(** An entry created during the loop can itself be protected: member [m1]
    is observed under the name [q], and the observed set has a labelled
    member named [q-protection].  If the range produces the created entry,
    a record is written for it, although the input desired set has no such
    member; if the range skips it, none is. *)
Example created_entry_protected :
  let observedComposed : gmap resource.Name resource.ObservedComposed.t :=
    {[ "m1" := model.observed_of
                 (model.object "example.org/v1" "Instance" "q" ""
                    (model.block_deletion "true"));
       "q-protection" := model.observed_of
                 (model.object "example.org/v1" "Instance" "z" ""
                    (model.block_deletion "true")) ]} in
  let desiredComposed : gmap resource.Name resource.DesiredComposed.t :=
    {[ "m1" := model.desired_of model.inst1 ]} in
  range_order desiredComposed ["m1"] ∧
  range_order desiredComposed ["m1"; "q-protection"] ∧
  loop_keys (J := model.json) ["m1"] observedComposed (desiredComposed, 0%nat) =
    ["q-protection"] ∧
  loop_keys (J := model.json) ["m1"; "q-protection"] observedComposed (desiredComposed, 0%nat) =
    ["q-protection"; "z-protection"].
Proof.
  cbv zeta. split; [|split; [|split; reflexivity]];
    apply range_order_single; apply (bool_decide_unpack _); reflexivity.
Qed.

Lemma member_usages_witness :
  let observedComposed : gmap resource.Name resource.ObservedComposed.t :=
    {[ "a" := model.observed_of model.inst1_unlabelled;
       "b" := model.observed_of model.role_x ]} in
  let desiredComposed : gmap resource.Name resource.DesiredComposed.t :=
    {[ "a" := model.desired_of model.inst1; "b" := model.desired_of model.bucket_x ]} in
  let out : gmap resource.Name resource.DesiredComposed.t :=
    {[ "a" := model.desired_of model.inst1;
       "b" := model.desired_of model.bucket_x;
       "inst-1-protection" := model.member_entry model.inst1_unlabelled;
       "x-protection" := model.member_entry model.role_x;
       "db-1-xr-protection" := model.composite_entry model.db1 ]} in
  range_order desiredComposed ["b"; "a"] ∧
  protected desiredComposed observedComposed "a" (model.observed_of model.inst1_unlabelled) ∧
  protected desiredComposed observedComposed "b" (model.observed_of model.role_x) ∧
  desired_output (J := model.json) ["b"; "a"] (model.composite_of model.db1)
    observedComposed desiredComposed = inr out ∧
  out !! "inst-1-protection" = Some (model.member_entry model.inst1_unlabelled) ∧
  out !! "x-protection" = Some (model.member_entry model.role_x).
Proof.
  cbv zeta.
  assert (Hab : ("a" : resource.Name) ≠ "b") by discriminate.
  assert (Hpa : protected
                  ({[ "a" := model.desired_of model.inst1;
                      "b" := model.desired_of model.bucket_x ]}
                    : gmap resource.Name resource.DesiredComposed.t)
                  {[ "a" := model.observed_of model.inst1_unlabelled;
                     "b" := model.observed_of model.role_x ]}
                  "a" (model.observed_of model.inst1_unlabelled)).
  { exists (model.desired_of model.inst1). repeat split; reflexivity. }
  assert (Hpb : protected
                  ({[ "a" := model.desired_of model.inst1;
                      "b" := model.desired_of model.bucket_x ]}
                    : gmap resource.Name resource.DesiredComposed.t)
                  {[ "a" := model.observed_of model.inst1_unlabelled;
                     "b" := model.observed_of model.role_x ]}
                  "b" (model.observed_of model.role_x)).
  { exists (model.desired_of model.bucket_x). repeat split; reflexivity. }
  assert (Hord : range_order
                   ({[ "a" := model.desired_of model.inst1;
                       "b" := model.desired_of model.bucket_x ]}
                     : gmap resource.Name resource.DesiredComposed.t) ["b"; "a"]).
  { apply range_order_pair; apply (bool_decide_unpack _); reflexivity. }
  split; [exact Hord|]. split; [exact Hpa|]. split; [exact Hpb|]. split; [reflexivity|].
  pose proof (member_usages (J := model.json) ["b"; "a"] (model.composite_of model.db1)
    {[ "a" := model.observed_of model.inst1_unlabelled;
       "b" := model.observed_of model.role_x ]}
    {[ "a" := model.desired_of model.inst1; "b" := model.desired_of model.bucket_x ]}
    {[ "a" := model.desired_of model.inst1;
       "b" := model.desired_of model.bucket_x;
       "inst-1-protection" := model.member_entry model.inst1_unlabelled;
       "x-protection" := model.member_entry model.role_x;
       "db-1-xr-protection" := model.composite_entry model.db1 ]}) as Hthm.
  destruct Hthm as [Hrec _]; [| | |exact Hord|reflexivity|].
  - intros name observed Hp.
    destruct (protected_pair _ _ _ _ _ _ _ _ Hab Hp) as [[-> ->]|[-> ->]];
      split; reflexivity.
  - intros n1 n2 o1 o2 Hp1 Hp2 Hne.
    destruct (protected_pair _ _ _ _ _ _ _ _ Hab Hp1) as [[-> ->]|[-> ->]],
             (protected_pair _ _ _ _ _ _ _ _ Hab Hp2) as [[-> ->]|[-> ->]];
      try congruence; discriminate.
  - intros name observed Hp.
    destruct (protected_pair _ _ _ _ _ _ _ _ Hab Hp) as [[-> ->]|[-> ->]]; discriminate.
  - split.
    + destruct (Hrec _ _ Hpa) as [_ (u & Hu & Hout)]. injection Hu as <-. exact Hout.
    + destruct (Hrec _ _ Hpb) as [_ (u & Hu & Hout)]. injection Hu as <-. exact Hout.
Defined.
